(** * voiceclone: the Telegram voice bot of [tbot.py]

    A shallow embedding of the bot's helper functions and handlers, and the
    properties of its registration and selection state machine.

    Modelling conventions.
    - In the handlers a Python [str] is a Rocq [string]; its characters are
      read as the code points U+0000..U+00FF (Latin-1), so ["233"%char] is
      U+00E9.  The character tables below ([\w], [str.lower], UTF-8) are
      Python 3's, restricted to that range.  The two functions that work
      on text alone, [sanitize_voice_name] and the bytes of [tts], are also
      given over every [str], as lists of code points ([Module Unicode]),
      and shown to agree with the handlers' on the handlers' strings.
    - The two module-level dicts are [gmap Z string] (user id to voice name).
    - The directory [VOICE_DIR] is missing, or not a directory, or out of
      reach, or a directory with the permissions the bot has on it and an
      association list of entries, regular files and subdirectories, in
      enumeration order.  Names are compared exactly (a case-sensitive
      file system).  [pathlib] answers as under Python 3.11: [exists] and
      [is_file] raise a permission error of [stat] again.  A write creates
      or truncates the file before the bytes go in, so a write that breaks
      leaves the file behind; whether the disk takes the bytes, and where
      the directory enumerates a new file, comes with the file that is
      written.
    - Handlers are computations in a state-and-exception monad over [world];
      the requests they make to the Telegram API are appended to [sent],
      what they log to [logged].  The requests that send something (a
      reply, an edit, an answer to a callback query, a chat action) are
      taken to get through; fetching a file from the Bot API may fail. *)

From Stdlib Require Import ZArith NArith Ascii String List Bool Lia.
From stdpp Require Import base option list gmap strings.

Local Open Scope string_scope.
Local Open Scope Z_scope.
Local Open Scope list_scope.

(* ===================================================================== *)
(** ** Characters and strings *)
(* ===================================================================== *)

Module Py.

(** [ord(c)] *)
Definition ord (c : ascii) : N := N_of_ascii c.

Definition in_range (lo hi n : N) : bool := ((lo <=? n) && (n <=? hi))%N.

Definition is_ascii (c : ascii) : bool := (ord c <? 128)%N.

Definition is_ascii_letter (c : ascii) : bool :=
  in_range 65 90 (ord c) || in_range 97 122 (ord c).

Definition is_ascii_digit (c : ascii) : bool := in_range 48 57 (ord c).

(** [str.isalnum] on one character: alphabetic, decimal, digit or numeric.
    Below U+0100 the non-ASCII members are the letters of Latin-1
    (U+00AA, U+00B5, U+00BA, U+00C0..U+00D6, U+00D8..U+00F6,
    U+00F8..U+00FF), the superscripts U+00B2, U+00B3, U+00B9 and the
    fractions U+00BC..U+00BE. *)
Definition isalnum (c : ascii) : bool :=
  let n := ord c in
  is_ascii_letter c || is_ascii_digit c
  || (n =? 170)%N || (n =? 181)%N || (n =? 186)%N
  || in_range 192 214 n || in_range 216 246 n || in_range 248 255 n
  || (n =? 178)%N || (n =? 179)%N || (n =? 185)%N
  || in_range 188 190 n.

(** The class [\w] of a [str] pattern: alphanumeric or underscore. *)
Definition is_word (c : ascii) : bool := isalnum c || (ord c =? 95)%N.

(** [str.lower] on one character: A..Z, and the capital letters of Latin-1
    (U+00C0..U+00DE without the multiplication sign U+00D7), move up by 32. *)
Definition lower_char (c : ascii) : ascii :=
  let n := ord c in
  if in_range 65 90 n || in_range 192 214 n || in_range 216 222 n
  then ascii_of_N (n + 32) else c.

Fixpoint lower (s : string) : string :=
  match s with
  | "" => ""
  | String c s' => String (lower_char c) (lower s')
  end.

(** [len(s)] *)
Definition len (s : string) : Z := Z.of_nat (String.length s).

Fixpoint take (n : nat) (s : string) : string :=
  match n, s with
  | S n', String c s' => String c (take n' s')
  | _, _ => ""
  end.

Fixpoint drop (n : nat) (s : string) : string :=
  match n, s with
  | S n', String _ s' => drop n' s'
  | _, _ => s
  end.

(** [s[:n]] and [s[i:]] for non-negative bounds. *)
Definition slice_to (n : Z) (s : string) : string := take (Z.to_nat n) s.
Definition slice_from (i : Z) (s : string) : string := drop (Z.to_nat i) s.

(** [s.rfind(ch)]: the index of the last occurrence of [ch], or [-1]. *)
Fixpoint rfind (ch : ascii) (s : string) : Z :=
  match s with
  | "" => -1
  | String c s' =>
      let i := rfind ch s' in
      if 0 <=? i then i + 1
      else if Ascii.eqb c ch then 0 else -1
  end.

(** [s.startswith(p)] *)
Fixpoint startswith (p s : string) : bool :=
  match p, s with
  | "", _ => true
  | String a p', String b s' => Ascii.eqb a b && startswith p' s'
  | String _ _, "" => false
  end.

(** [sep.join(parts)] *)
Fixpoint join (sep : string) (parts : list string) : string :=
  match parts with
  | [] => ""
  | [p] => p
  | p :: rest => p +:+ sep +:+ join sep rest
  end.

(** [re.sub(r'[^…]', '', s)] for a one-character class: every character
    outside the class is deleted, the others stay in order. *)
Fixpoint re_sub_delete_outside (cls : ascii -> bool) (s : string) : string :=
  match s with
  | "" => ""
  | String c s' =>
      if cls c then String c (re_sub_delete_outside cls s')
      else re_sub_delete_outside cls s'
  end.

(** [s.encode()] on the strings of the handlers: UTF-8.  A code point
    below U+0080 is one byte, one in U+0080..U+00FF is the two bytes
    [110000xx 10xxxxxx].  No surrogate is in this range, so nothing is
    raised here; [Unicode.encode] below is [str.encode] in general. *)
Definition encode_char (c : ascii) : list Byte.byte :=
  let n := Z.of_N (ord c) in
  let byte (z : Z) := byte_of_ascii (ascii_of_N (Z.to_N z)) in
  if n <? 128 then [byte n]
  else [byte (Z.lor 192 (Z.shiftr n 6)); byte (Z.lor 128 (Z.land n 63))].

Fixpoint encode (s : string) : list Byte.byte :=
  match s with
  | "" => []
  | String c s' => encode_char c ++ encode s'
  end.

(** Truthiness of a [str]: the empty string is falsy. *)
Definition truthy (s : string) : bool :=
  match s with "" => false | _ => true end.

End Py.

(* ===================================================================== *)
(** ** Configuration and constants (tbot.py, lines 23-28) *)
(* ===================================================================== *)

Definition DEFAULT_VOICE_NAME : string := "default".
Definition CALLBACK_PREFIX_VOICE : string := "select_voice:".

(** The newline of the Python literals. *)
Definition nl : string := String "010"%char "".

(* ===================================================================== *)
(** ** sanitize_voice_name (lines 68-72) *)
(* ===================================================================== *)

(** The character class [[^\w\-]] negated: what [re.sub] keeps. *)
Definition keeps (c : ascii) : bool := Py.is_word c || (Py.ord c =? 45)%N.

Definition sanitize_voice_name (name : string) : string :=
  let name := Py.re_sub_delete_outside keeps name in
  Py.slice_to 50 name.

(** The sanitization rule in the words of the specification: only ASCII
    letters, ASCII digits, underscore and hyphen are kept. *)
Definition spec_keeps (c : ascii) : bool :=
  Py.is_ascii_letter c || Py.is_ascii_digit c
  || (Py.ord c =? 95)%N || (Py.ord c =? 45)%N.

Definition spec_sanitize (name : string) : string :=
  Py.slice_to 50 (Py.re_sub_delete_outside spec_keeps name).

(* ===================================================================== *)
(** ** The world the handlers run in *)
(* ===================================================================== *)

(** An entry of [VOICE_DIR]: a regular file with its bytes, or a
    subdirectory. *)
Inductive node :=
  | RegularFile (content : list Byte.byte)
  | Directory.

Definition is_file (n : node) : bool :=
  match n with RegularFile _ => true | Directory => false end.

(** The permissions the bot has on a directory: to enumerate its entries
    (r), to create entries in it (w), to reach its entries (x). *)
Record permissions := {
  readable : bool;
  writable : bool;
  searchable : bool;
}.

Definition all_permissions : permissions :=
  {| readable := true; writable := true; searchable := true |}.

(** The storage location [VOICE_DIR]: nothing is at the path, and the
    bot can create the directory; or nothing is at the path, and the
    directory above does not let the bot create it; or what is at the path
    is not a directory; or the path cannot be reached (a directory above
    it denies search, so that [stat] fails with a permission error); or a
    directory is there, with the permissions the bot has on it and its
    entries in enumeration order. *)
Inductive storage :=
  | Missing
  | Uncreatable
  | NotADirectory
  | Unreachable
  | Dir (p : permissions) (entries : list (string * node)).

(** A directory the bot has every permission on. *)
Definition Listing (entries : list (string * node)) : storage :=
  Dir all_permissions entries.

(** What a handler hands to the Telegram API. *)
Inductive outgoing :=
  | ReplyText (text : string)
  | ReplyVoice (voice : list Byte.byte) (caption : string)
  | SendChatActionRecordVoice
  | AnswerCallbackQuery
  | EditMessageText (text : string).

Inductive level := INFO | WARNING | ERROR.

(** The records handed to [logger], with the values they interpolate. *)
Inductive log_event :=
  | TtsCalled (voice_name text30 : string)
  | ErrorListingVoices
  | UsingFirstAvailable (user_id : Z) (voice : string)
  | UsingConceptualDefault (user_id : Z) (voice : string)
  | UnknownCallbackData (data : string)
  | NoAudioSent (user_id : Z) (voice_name : string)
  | DocumentNotWav (user_id : Z) (voice_name : string) (mime : option string)
  | NewVoiceSaved (voice_name : string) (user_id : Z) (file_name : string)
  | FailedToSave (voice_name : string) (user_id : Z)
  | ErrorDuringTts (user_id : Z).

Record world := World {
  user_selected_voice : gmap Z string;    (* {user_id: voice_name} *)
  awaiting_voice_upload : gmap Z string;  (* {user_id: voice_name_to_save} *)
  voice_dir : storage;
  sent : list outgoing;
  logged : list (level * log_event);
}.

(** The state at module load: both dicts empty, nothing sent or logged. *)
Definition initial_world (d : storage) : world :=
  World ∅ ∅ d [] [].

Definition set_selected (f : gmap Z string → gmap Z string) (w : world) :=
  World (f (user_selected_voice w)) (awaiting_voice_upload w)
        (voice_dir w) (sent w) (logged w).
Definition set_awaiting (f : gmap Z string → gmap Z string) (w : world) :=
  World (user_selected_voice w) (f (awaiting_voice_upload w))
        (voice_dir w) (sent w) (logged w).
Definition set_voice_dir (d : storage) (w : world) :=
  World (user_selected_voice w) (awaiting_voice_upload w)
        d (sent w) (logged w).
Definition push_sent (o : outgoing) (w : world) :=
  World (user_selected_voice w) (awaiting_voice_upload w)
        (voice_dir w) (sent w ++ [o]) (logged w).
Definition push_logged (l : level) (e : log_event) (w : world) :=
  World (user_selected_voice w) (awaiting_voice_upload w)
        (voice_dir w) (sent w) (logged w ++ [(l, e)]).

(** The registration state of a user, as the specification names it. *)
Inductive registration :=
  | Idle
  | AwaitingUpload (pendingName : string).

Definition registration_of (w : world) (user_id : Z) : registration :=
  match awaiting_voice_upload w !! user_id with
  | None => Idle
  | Some name => AwaitingUpload name
  end.

(* ===================================================================== *)
(** ** State and exceptions *)
(* ===================================================================== *)

Inductive exn :=
  | OSError             (* file system *)
  | TelegramError       (* a request to the Bot API failed *)
  | UnicodeEncodeError. (* [str.encode] met a lone surrogate *)

Inductive outcome (A : Type) :=
  | Ret (a : A)
  | Raise (e : exn).
Arguments Ret {A} a.
Arguments Raise {A} e.

Definition M (A : Type) : Type := world → outcome A * world.

Definition ret {A} (a : A) : M A := λ w, (Ret a, w).
Definition raise {A} (e : exn) : M A := λ w, (Raise e, w).
Definition bind {A B} (m : M A) (k : A → M B) : M B :=
  λ w, match m w with
       | (Ret a, w') => k a w'
       | (Raise e, w') => (Raise e, w')
       end.

Declare Scope py_scope.
Delimit Scope py_scope with py.
Notation "x <- m ;; k" := (bind m (λ x, k))
  (at level 100, m at next level, right associativity) : py_scope.
Notation "m ;; k" := (bind m (λ _, k))
  (at level 100, right associativity) : py_scope.
Local Open Scope py_scope.

Definition get_world : M world := λ w, (Ret w, w).
Definition modify (f : world → world) : M unit := λ w, (Ret tt, f w).
Definition lift {A} (o : outcome A) : M A := λ w, (o, w).

(** [try: body  except <caught> as e: handler]; the state reached when the
    exception was raised is kept. *)
Definition try_except {A} (caught : exn → bool) (body : M A)
    (handler : exn → M A) : M A :=
  λ w, match body w with
       | (Ret a, w') => (Ret a, w')
       | (Raise e, w') => if caught e then handler e w' else (Raise e, w')
       end.

Definition is_OSError (e : exn) : bool :=
  match e with OSError => true | _ => false end.
Definition is_Exception (e : exn) : bool := true.

(** The world after running [m], and its result. *)
Definition exec {A} (m : M A) (w : world) : world := snd (m w).
Definition result {A} (m : M A) (w : world) : outcome A := fst (m w).

(* ===================================================================== *)
(** ** pathlib over [VOICE_DIR] *)
(* ===================================================================== *)

(** [PurePath.suffix] and [PurePath.stem] of a final component: the part
    from the last dot on, unless that dot is the first or the last
    character. *)
Module PurePath.

Definition suffix (name : string) : string :=
  let i := Py.rfind "."%char name in
  if (0 <? i) && (i <? Py.len name - 1) then Py.slice_from i name else "".

Definition stem (name : string) : string :=
  let i := Py.rfind "."%char name in
  if (0 <? i) && (i <? Py.len name - 1) then Py.slice_to i name else name.

End PurePath.

Fixpoint lookup_entry (name : string) (entries : list (string * node))
    : option node :=
  match entries with
  | [] => None
  | (n, x) :: rest => if String.eqb n name then Some x else lookup_entry name rest
  end.

(** The file system answers as under Python 3.11, where [Path.exists] and
    [Path.is_file] raise again every error of [stat] but "no such file or
    directory" and "not a directory". *)

(** [VOICE_DIR.exists()] *)
Definition dir_exists (d : storage) : outcome bool :=
  match d with
  | Missing | Uncreatable => Ret false
  | Unreachable => Raise OSError
  | NotADirectory | Dir _ _ => Ret true
  end.

(** [(VOICE_DIR / name).exists()]: true for a file and for a directory;
    the directory has to be searchable. *)
Definition path_exists (d : storage) (name : string) : outcome bool :=
  match d with
  | Missing | Uncreatable | NotADirectory => Ret false
  | Unreachable => Raise OSError
  | Dir p entries =>
      if searchable p
      then Ret (bool_decide (is_Some (lookup_entry name entries)))
      else Raise OSError
  end.

(** [VOICE_DIR.iterdir()]: the directory has to be readable. *)
Definition iterdir (d : storage) : outcome (list (string * node)) :=
  match d with
  | Dir p entries => if readable p then Ret entries else Raise OSError
  | _ => Raise OSError
  end.

(** [f.is_file()] for an entry [f] of [VOICE_DIR]: the directory has to be
    searchable. *)
Definition entry_is_file (d : storage) (f : node) : outcome bool :=
  match d with
  | Dir p _ => if searchable p then Ret (is_file f) else Raise OSError
  | _ => Raise OSError
  end.

(** [VOICE_DIR.mkdir(parents=True, exist_ok=True)]: a directory that
    exists is left as it is, whatever its permissions; it fails where the
    directory cannot be created, and on what is not a directory or cannot
    be reached. *)
Definition mkdir (d : storage) : outcome storage :=
  match d with
  | Missing => Ret (Listing [])
  | Dir _ _ => Ret d
  | Uncreatable | NotADirectory | Unreachable => Raise OSError
  end.

Fixpoint replace_entry (name : string) (x : node)
    (entries : list (string * node)) : list (string * node) :=
  match entries with
  | [] => []
  | (n, y) :: rest =>
      if String.eqb n name then (n, x) :: rest
      else (n, y) :: replace_entry name x rest
  end.

(** A new entry, enumerated at position [i] (last when [i] is beyond the
    end). *)
Definition insert_at (i : nat) (e : string * node)
    (entries : list (string * node)) : list (string * node) :=
  firstn i entries ++ e :: skipn i entries.

(** How the disk answers a write: all bytes are written; or the file
    cannot be opened; or the file is opened, and the write breaks after
    [n] bytes (no space left, say). *)
Inductive disk_answer :=
  | WriteCompletes
  | WriteRefused
  | WriteBreaksAfter (n : nat).

(** [Path.write_bytes], that is [open(path, 'wb')] and [write]: the
    directory has to be searchable, and writable when the file is new; the
    file is created or truncated when it is opened, so a write that breaks
    leaves it behind with the bytes written so far; a directory of that
    name makes the opening fail.  A new file is enumerated at [place]. *)
Definition write_bytes (d : storage) (name : string)
    (content : list Byte.byte) (answer : disk_answer) (place : nat)
    : storage * outcome unit :=
  match d with
  | Dir p entries =>
      if negb (searchable p) then (d, Raise OSError)
      else
        match lookup_entry name entries with
        | Some Directory => (d, Raise OSError)
        | Some (RegularFile _) =>
            match answer with
            | WriteCompletes =>
                (Dir p (replace_entry name (RegularFile content) entries),
                 Ret tt)
            | WriteBreaksAfter n =>
                (Dir p (replace_entry name (RegularFile (firstn n content))
                          entries),
                 Raise OSError)
            | WriteRefused => (d, Raise OSError)
            end
        | None =>
            if negb (writable p) then (d, Raise OSError)
            else
              match answer with
              | WriteCompletes =>
                  (Dir p (insert_at place (name, RegularFile content) entries),
                   Ret tt)
              | WriteBreaksAfter n =>
                  (Dir p (insert_at place
                            (name, RegularFile (firstn n content)) entries),
                   Raise OSError)
              | WriteRefused => (d, Raise OSError)
              end
        end
  | _ => (d, Raise OSError)
  end.

(* ===================================================================== *)
(** ** Telegram objects *)
(* ===================================================================== *)

(** The [File] returned by [bot.get_file], with what its
    [download_to_drive] meets: [download] is the outcome of fetching the
    bytes, [disk] the answer of the disk to writing them, [place] where the
    directory enumerates the file when it is new. *)
Record telegram_file := {
  download : outcome (list Byte.byte);
  disk : disk_answer;
  place : nat;
}.

(** [update.message]: the sender, the text, the file ids of a voice note
    and of an audio file, and the MIME type of a document, when present. *)
Record message := {
  from_user : Z;
  text : string;
  voice : option string;
  audio : option string;
  document : option (option string);
}.

(** [update.callback_query] *)
Record callback_query := {
  query_from_user : Z;
  data : string;
}.

(** [context]: the arguments of a command and [context.bot.get_file]. *)
Record context := {
  args : list string;
  get_file : string → outcome telegram_file;
}.

Definition reply_text (s : string) : M unit := modify (push_sent (ReplyText s)).
Definition reply_voice (v : list Byte.byte) (caption : string) : M unit :=
  modify (push_sent (ReplyVoice v caption)).
Definition send_chat_action_record_voice : M unit :=
  modify (push_sent SendChatActionRecordVoice).
Definition query_answer : M unit := modify (push_sent AnswerCallbackQuery).
Definition edit_message_text (s : string) : M unit :=
  modify (push_sent (EditMessageText s)).
Definition logger (l : level) (e : log_event) : M unit :=
  modify (push_logged l e).

(** The texts of the replies. *)
Definition msg_usage : string := "Usage: /newvoice <voice_name>".
Definition msg_invalid_name : string :=
  "Invalid voice name. Please use alphanumeric characters.".
Definition msg_already_exists (voice_name : string) : string :=
  "A voice named '" +:+ voice_name +:+
  "' already exists. Choose a different name.".
Definition msg_preparing (voice_name : string) : string :=
  "Okay, preparing to add new voice: '" +:+ voice_name +:+ "'." +:+ nl +:+
  "Please send the voice recording now (as a voice message or a .wav audio file).".
Definition msg_voice_set (voice_name : string) : string :=
  "Voice set to '" +:+ voice_name +:+ "'.".
Definition msg_unknown_action : string := "Sorry, an unknown action occurred.".
Definition msg_waiting_for_audio (voice_name_pending : string) : string :=
  "I'm currently waiting for an audio file for the voice '" +:+
  voice_name_pending +:+ "'." +:+ nl +:+
  "Please send a voice message or a .wav file. If you want to cancel, use /cancel (not implemented yet), or just send text after a while.".
Definition msg_caption (selected_voice : string) : string :=
  "Voice: " +:+ selected_voice.
Definition msg_tts_failed : string :=
  "Sorry, I couldn't generate the speech for that text.".
Definition msg_use_newvoice_first : string :=
  "If you want to add this as a new voice, please use the /newvoice <name> command first.".
Definition msg_no_audio : string :=
  "Something went wrong, I didn't receive an audio file. Please try /newvoice again.".
Definition msg_added (voice_name : string) : string :=
  "New voice '" +:+ voice_name +:+ "' added successfully!".
Definition msg_error_saving (voice_name : string) : string :=
  "Sorry, there was an error saving the voice '" +:+ voice_name +:+
  "'. Please try again.".

(* ===================================================================== *)
(** ** Helper functions (lines 43-66) *)
(* ===================================================================== *)

(** The bytes of the placeholder audio. *)
Definition fake_audio (voice_name : string) : list Byte.byte :=
  Py.encode ("FAKE_AUDIO_FOR_" +:+ voice_name).

Definition tts (voice_name text : string) : M (list Byte.byte) :=
  logger INFO (TtsCalled voice_name (Py.slice_to 30 text)) ;;
  ret (fake_audio voice_name).

(** The comprehension of [get_available_voices]: [f.is_file()] is asked
    for every entry, before its suffix is looked at. *)
Fixpoint wav_stems (d : storage) (entries : list (string * node))
    : outcome (list string) :=
  match entries with
  | [] => Ret []
  | (name, f) :: rest =>
      match entry_is_file d f with
      | Raise e => Raise e
      | Ret regular =>
          match wav_stems d rest with
          | Raise e => Raise e
          | Ret stems =>
              Ret (if regular
                      && String.eqb (Py.lower (PurePath.suffix name)) ".wav"
                   then PurePath.stem name :: stems
                   else stems)
          end
      end
  end.

(** [VOICE_DIR.exists()] of line 55 is asked outside the [try]. *)
Definition get_available_voices : M (list string) :=
  w <- get_world ;;
  there <- lift (dir_exists (voice_dir w)) ;;
  if negb there then ret []
  else
    try_except is_OSError
      (entries <- lift (iterdir (voice_dir w)) ;;
       lift (wav_stems (voice_dir w) entries))
      (λ e, logger ERROR ErrorListingVoices ;; ret []).

(* ===================================================================== *)
(** ** Command and callback handlers (lines 98-138) *)
(* ===================================================================== *)

Definition newvoice_command (msg : message) (ctx : context) : M unit :=
  let user_id := from_user msg in
  match args ctx with
  | [] => reply_text msg_usage
  | _ =>
      let raw_voice_name := Py.join " " (args ctx) in
      let voice_name := sanitize_voice_name raw_voice_name in
      if negb (Py.truthy voice_name) then reply_text msg_invalid_name
      else
        w <- get_world ;;
        taken <- lift (path_exists (voice_dir w) (voice_name +:+ ".wav")) ;;
        if taken then
          reply_text (msg_already_exists voice_name)
        else
          modify (set_awaiting (λ m, <[user_id := voice_name]> m)) ;;
          reply_text (msg_preparing voice_name)
  end.

Definition button_handler (query : callback_query) : M unit :=
  query_answer ;;
  let user_id := query_from_user query in
  let data := data query in
  if Py.startswith CALLBACK_PREFIX_VOICE data then
    let voice_name :=
      Py.slice_from (Py.len CALLBACK_PREFIX_VOICE) data in
    modify (set_selected (λ m, <[user_id := voice_name]> m)) ;;
    edit_message_text (msg_voice_set voice_name)
  else
    logger WARNING (UnknownCallbackData data) ;;
    edit_message_text msg_unknown_action.

(* ===================================================================== *)
(** ** Message handlers (lines 143-222) *)
(* ===================================================================== *)

(** Lines 159-165 of [handle_text]: the fallback when nothing is selected. *)
Definition first_available_or_default (user_id : Z) : M string :=
  available_voices <- get_available_voices ;;
  match available_voices with
  | first :: _ =>
      logger INFO (UsingFirstAvailable user_id first) ;; ret first
  | [] =>
      logger INFO (UsingConceptualDefault user_id DEFAULT_VOICE_NAME) ;;
      ret DEFAULT_VOICE_NAME
  end.

(** Lines 157-165 of [handle_text]: the voice a synthesis request uses.
    [not selected_voice] holds for [None] and for the empty string. *)
Definition determine_voice (user_id : Z) : M string :=
  w <- get_world ;;
  let selected_voice := user_selected_voice w !! user_id in
  match selected_voice with
  | Some v =>
      if negb (Py.truthy v) then first_available_or_default user_id
      else ret v
  | None => first_available_or_default user_id
  end.

Definition handle_text (msg : message) (ctx : context) : M unit :=
  let user_id := from_user msg in
  let text := text msg in
  w <- get_world ;;
  match awaiting_voice_upload w !! user_id with
  | Some voice_name_pending =>
      reply_text (msg_waiting_for_audio voice_name_pending)
  | None =>
      selected_voice <- determine_voice user_id ;;
      send_chat_action_record_voice ;;
      try_except is_Exception
        (audio_data <- tts selected_voice text ;;
         reply_voice audio_data (msg_caption selected_voice))
        (λ e, logger ERROR (ErrorDuringTts user_id) ;;
              reply_text msg_tts_failed)
  end.

(** [new_file.download_to_drive(custom_path=file_path)]: the bytes are
    fetched, then written. *)
Definition download_to_drive (new_file : telegram_file) (file_name : string)
    : M unit :=
  content <- lift (download new_file) ;;
  w <- get_world ;;
  let written :=
    write_bytes (voice_dir w) file_name content (disk new_file)
      (place new_file) in
  modify (set_voice_dir (fst written)) ;;
  lift (snd written).

(** Lines 207-215 of [handle_audio]: the body of the [try]. *)
Definition save_voice (user_id : Z) (voice_name file_id : string)
    (ctx : context) : M unit :=
  new_file <- lift (get_file ctx file_id) ;;
  let file_name := voice_name +:+ ".wav" in
  w <- get_world ;;
  d <- lift (mkdir (voice_dir w)) ;;
  modify (set_voice_dir d) ;;
  download_to_drive new_file file_name ;;
  logger INFO (NewVoiceSaved voice_name user_id file_name) ;;
  reply_text (msg_added voice_name).

Definition is_wav_mime (mime : option string) : bool :=
  match mime with
  | Some m =>
      String.eqb m "audio/wav" || String.eqb m "audio/x-wav"
      || String.eqb m "audio/wave"
  | None => false
  end.

(** [update.message.voice or update.message.audio] *)
Definition audio_message_part (msg : message) : option string :=
  match voice msg with
  | Some v => Some v
  | None => audio msg
  end.

(** Line 199: a document is logged when its MIME type is not a WAV one. *)
Definition check_mime_type (user_id : Z) (voice_name : string)
    (msg : message) : M unit :=
  match document msg with
  | Some mime =>
      if negb (is_wav_mime mime)
      then logger INFO (DocumentNotWav user_id voice_name mime)
      else ret tt
  | None => ret tt
  end.

Definition handle_audio (msg : message) (ctx : context) : M unit :=
  let user_id := from_user msg in
  w <- get_world ;;
  match awaiting_voice_upload w !! user_id with
  | None => reply_text msg_use_newvoice_first
  | Some voice_name =>
      modify (set_awaiting (λ m, delete user_id m)) ;;
      match audio_message_part msg with
      | None =>
          logger WARNING (NoAudioSent user_id voice_name) ;;
          reply_text msg_no_audio
      | Some file_id =>
          check_mime_type user_id voice_name msg ;;
          try_except is_Exception
            (save_voice user_id voice_name file_id ctx)
            (λ e, logger ERROR (FailedToSave voice_name user_id) ;;
                  reply_text (msg_error_saving voice_name))
      end
  end.

(* ===================================================================== *)
(** ** The specification's notions, and devices of the proofs *)
(* ===================================================================== *)

(** The case variants of the recognized audio suffix. *)
Definition wav_suffixes : list string :=
  [".wav"; ".waV"; ".wAv"; ".wAV"; ".Wav"; ".WaV"; ".WAv"; ".WAV"].

Definition is_wav_suffix (sfx : string) : bool :=
  existsb (String.eqb sfx) wav_suffixes.

(** The stems of the regular files whose suffix is a case variant of
    [.wav], in the order of the entries. *)
Definition wav_voices (entries : list (string * node)) : list string :=
  List.map (λ e, PurePath.stem (fst e))
    (List.filter
       (λ e, is_file (snd e) && is_wav_suffix (PurePath.suffix (fst e)))
       entries).

(** The catalog listing in the words of the specification: the voices of
    a directory that can be read and searched; nothing for a location that
    is missing or cannot be listed. *)
Definition listed_voices (d : storage) : list string :=
  match d with
  | Dir p entries =>
      if readable p && searchable p then wav_voices entries else []
  | _ => []
  end.

(** What asking for the listing comes to: [exists] raises when the
    location cannot be reached; otherwise the listing is returned. *)
Definition listing_outcome (d : storage) : outcome (list string) :=
  match d with
  | Unreachable => Raise OSError
  | _ => Ret (listed_voices d)
  end.

(** The resolution order in the words of the specification: the explicit
    selection, else the first listed voice, else the conceptual default. *)
Definition spec_resolve_voice (selection : option string)
    (catalog : list string) : string :=
  match selection with
  | Some v => v
  | None =>
      match catalog with
      | first :: _ => first
      | [] => DEFAULT_VOICE_NAME
      end
  end.

(** The selection that [if not selected_voice] lets through: an entry that
    is the empty string counts as no selection. *)
Definition effective_selection (selection : option string) : option string :=
  match selection with
  | Some v => if Py.truthy v then Some v else None
  | None => None
  end.

(** What resolving the voice comes to: the selection that counts, without
    a look at the storage; otherwise the outcome of asking for the
    listing, resolved in the specification's order. *)
Definition resolve_outcome (selection : option string) (d : storage)
    : outcome string :=
  match effective_selection selection with
  | Some v => Ret v
  | None =>
      match listing_outcome d with
      | Ret catalog => Ret (spec_resolve_voice None catalog)
      | Raise e => Raise e
      end
  end.

(** Reading one character back from its UTF-8 bytes; only used to show
    that [Py.encode] loses nothing. *)
Definition utf8_decode_head (bs : list Byte.byte)
    : option (ascii * list Byte.byte) :=
  match bs with
  | [] => None
  | b :: rest =>
      let n := Z.of_N (Byte.to_N b) in
      if n <? 128 then Some (ascii_of_N (Z.to_N n), rest)
      else
        match rest with
        | [] => None
        | b2 :: rest' =>
            let m := Z.of_N (Byte.to_N b2) in
            Some (ascii_of_N
                    (Z.to_N (Z.lor (Z.shiftl (Z.land n 3) 6) (Z.land m 63))),
                  rest')
        end
  end.

Definition first_chars (n : nat) (s : string) : string := Py.take n s.

(* ===================================================================== *)
(** ** Strings of arbitrary code points *)
(* ===================================================================== *)

(** The two helper functions that work on text alone, [sanitize_voice_name]
    and the byte string of [tts], over every Python [str]: a list of code
    points, lone surrogates included (Python decodes the bytes of a file
    name that are not UTF-8 to U+DC80..U+DCFF).  The character database of
    the Python runtime is no part of this repository: beyond U+00FF, which
    characters [\w] matches is the table [beyond_latin1] the functions
    take. *)
Module Unicode.

Definition is_code_point (c : N) : bool := (c <? 1114112)%N.

Definition is_surrogate (c : N) : bool := Py.in_range 55296 57343 c.

(** The code points of a string of the handlers. *)
Definition codes (s : string) : list N :=
  List.map N_of_ascii (list_ascii_of_string s).

(** [c.isalnum()] *)
Definition isalnum (beyond_latin1 : N → bool) (c : N) : bool :=
  if (c <? 256)%N then Py.isalnum (ascii_of_N c) else beyond_latin1 c.

(** [\w] of a [str] pattern *)
Definition is_word (beyond_latin1 : N → bool) (c : N) : bool :=
  isalnum beyond_latin1 c || (c =? 95)%N.

(** The characters outside the class [[^\w\-]] of line 70. *)
Definition keeps (beyond_latin1 : N → bool) (c : N) : bool :=
  is_word beyond_latin1 c || (c =? 45)%N.

(** Lines 68-72. *)
Definition sanitize_voice_name (beyond_latin1 : N → bool) (name : list N)
    : list N :=
  firstn 50 (List.filter (keeps beyond_latin1) name).

(** The characters the specification names: ASCII letters, ASCII digits,
    underscore and hyphen. *)
Definition spec_keeps (c : N) : bool :=
  Py.in_range 65 90 c || Py.in_range 97 122 c || Py.in_range 48 57 c
  || (c =? 95)%N || (c =? 45)%N.

Definition spec_sanitize (name : list N) : list N :=
  firstn 50 (List.filter spec_keeps name).

Definition byte (n : N) : Byte.byte :=
  match Byte.of_N n with
  | Some b => b
  | None => Byte.x00
  end.

(** [str.encode()] of one character: UTF-8, strict, so that a surrogate
    raises. *)
Definition encode_char (c : N) : outcome (list Byte.byte) :=
  (if c <? 128 then Ret [byte c]
   else if c <? 2048 then
     Ret [byte (192 + c / 64); byte (128 + c mod 64)]
   else if is_surrogate c then Raise UnicodeEncodeError
   else if c <? 65536 then
     Ret [byte (224 + c / 4096); byte (128 + (c / 64) mod 64);
          byte (128 + c mod 64)]
   else
     Ret [byte (240 + c / 262144); byte (128 + (c / 4096) mod 64);
          byte (128 + (c / 64) mod 64); byte (128 + c mod 64)])%N.

(** [str.encode()] *)
Fixpoint encode (s : list N) : outcome (list Byte.byte) :=
  match s with
  | [] => Ret []
  | c :: rest =>
      match encode_char c with
      | Raise e => Raise e
      | Ret bs =>
          match encode rest with
          | Raise e => Raise e
          | Ret bs' => Ret (bs ++ bs')
          end
      end
  end.

(** Line 51: the bytes [tts] returns, or the exception of [encode]. *)
Definition tts (voice_name text : list N) : outcome (list Byte.byte) :=
  encode (codes "FAKE_AUDIO_FOR_" ++ voice_name).

(** Reading one character back from its UTF-8 bytes; only used to show
    that [encode] loses nothing. *)
Definition decode_head (bs : list Byte.byte) : option (N * list Byte.byte) :=
  match bs with
  | [] => None
  | b0 :: r0 =>
      let n0 := Byte.to_N b0 in
      if (n0 <? 128)%N then Some (n0, r0)
      else
        match r0 with
        | [] => None
        | b1 :: r1 =>
            let n1 := Byte.to_N b1 in
            if (n0 <? 224)%N
            then Some (((n0 - 192) * 64 + (n1 - 128))%N, r1)
            else
              match r1 with
              | [] => None
              | b2 :: r2 =>
                  let n2 := Byte.to_N b2 in
                  if (n0 <? 240)%N
                  then Some (((n0 - 224) * 4096 + (n1 - 128) * 64
                              + (n2 - 128))%N, r2)
                  else
                    match r2 with
                    | [] => None
                    | b3 :: r3 =>
                        let n3 := Byte.to_N b3 in
                        Some (((n0 - 240) * 262144 + (n1 - 128) * 4096
                               + (n2 - 128) * 64 + (n3 - 128))%N, r3)
                    end
              end
        end
  end.


End Unicode.

(* ===================================================================== *)
(** ** Concrete messages and worlds *)
(* ===================================================================== *)

Definition text_message (user_id : Z) (t : string) : message :=
  {| from_user := user_id; text := t;
     voice := None; audio := None; document := None |}.

Definition voice_message (user_id : Z) (file_id : string) : message :=
  {| from_user := user_id; text := "";
     voice := Some file_id; audio := None; document := None |}.

(** A context with the arguments of a command; no file can be fetched. *)
Definition with_args (a : list string) : context :=
  {| args := a; get_file := λ _, Raise TelegramError |}.

(** A file whose bytes arrive and are written in full. *)
Definition delivered (content : list Byte.byte) : telegram_file :=
  {| download := Ret content; disk := WriteCompletes; place := 0 |}.

(** A context whose bot cannot reach the Bot API. *)
Definition bot_offline : context := with_args [].

(** A context whose bot delivers [content] for every file id. *)
Definition bot_delivering (content : list Byte.byte) : context :=
  {| args := []; get_file := λ _, Ret (delivered content) |}.

(** The Bot API delivers the file, and the disk is full after three of
    its bytes. *)
Definition bot_disk_full (content : list Byte.byte) : context :=
  {| args := [];
     get_file := λ _, Ret {| download := Ret content;
                             disk := WriteBreaksAfter 3;
                             place := 0 |} |}.


Definition ten_bytes : list Byte.byte :=
  [Byte.x52; Byte.x49; Byte.x46; Byte.x46; Byte.x00;
   Byte.x01; Byte.x02; Byte.x03; Byte.x04; Byte.x05].

(** User 7 has sent [/newvoice bob] to a bot with an empty catalog. *)
Definition world_awaiting_bob : world :=
  exec (newvoice_command (text_message 7 "/newvoice bob") (with_args ["bob"]))
       (initial_world (Listing [])).

(** A catalog of two voices, and the world after user 7 pressed a button
    whose callback data is the bare prefix. *)
Definition catalog_alice_bob : storage :=
  Listing [("alice.wav", RegularFile []); ("bob.wav", RegularFile [])].

Definition world_empty_selection : world :=
  exec (button_handler {| query_from_user := 7; data := "select_voice:" |})
       (initial_world catalog_alice_bob).

(** A storage location that holds one subdirectory, named [bob.wav]. *)
Definition world_directory_bob : world :=
  initial_world (Listing [("bob.wav", Directory)]).

(** A storage location that holds one file, named [bob.WAV]. *)
Definition world_uppercase_bob : world :=
  initial_world (Listing [("bob.WAV", RegularFile [])]).

(* ===================================================================== *)
(** ** The remaining handlers (lines 76-96) *)
(* ===================================================================== *)

Definition msg_welcome : string :=
  "Welcome! I can convert your text to speech." +:+ nl +:+
  "Use /voice to select a voice." +:+ nl +:+
  "Use /newvoice <name> to add a new voice (then send a voice message or .wav file).".
Definition msg_no_voices : string :=
  "No voices available. Use /newvoice <name> to add one.".
Definition msg_select_a_voice : string := "Select a voice:".

Definition start_command (msg : message) (ctx : context) : M unit :=
  reply_text msg_welcome.

(** [InlineKeyboardButton(text, callback_data=...)] *)
Record InlineKeyboardButton := {
  button_text : string;
  callback_data : string;
}.

(** Lines 91-94 of [voice_command]: one row of one button per voice. *)
Definition voice_keyboard (voices : list string)
    : list (list InlineKeyboardButton) :=
  List.map
    (λ v, [ {| button_text := v;
               callback_data := CALLBACK_PREFIX_VOICE +:+ v |} ])
    voices.

(** [voice_command].  The value of the computation is the [reply_markup]
    that goes with the reply, which [sent] does not record: [None] when the
    reply carries no keyboard. *)
Definition voice_command (msg : message) (ctx : context)
    : M (option (list (list InlineKeyboardButton))) :=
  voices <- get_available_voices ;;
  match voices with
  | [] => reply_text msg_no_voices ;; ret None
  | _ =>
      let keyboard := voice_keyboard voices in
      reply_text msg_select_a_voice ;; ret (Some keyboard)
  end.

(* ===================================================================== *)
(** ** main (lines 226-259) *)
(* ===================================================================== *)




(** An update, as the handlers registered in lines 245-255 receive it:
    the three commands, a button press, a text that is no command, a voice
    note or audio file. *)
Inductive update :=
  | StartCommand (msg : message) (ctx : context)
  | VoiceCommand (msg : message) (ctx : context)
  | NewvoiceCommand (msg : message) (ctx : context)
  | CallbackQuery (query : callback_query)
  | TextMessage (msg : message) (ctx : context)
  | AudioMessage (msg : message) (ctx : context).

Definition dispatch (u : update) : M unit :=
  match u with
  | StartCommand msg ctx => start_command msg ctx
  | VoiceCommand msg ctx => voice_command msg ctx ;; ret tt
  | NewvoiceCommand msg ctx => newvoice_command msg ctx
  | CallbackQuery query => button_handler query
  | TextMessage msg ctx => handle_text msg ctx
  | AudioMessage msg ctx => handle_audio msg ctx
  end.

(** The user an update comes from. *)
Definition sender (u : update) : Z :=
  match u with
  | StartCommand msg _ | VoiceCommand msg _ | NewvoiceCommand msg _
  | TextMessage msg _ | AudioMessage msg _ => from_user msg
  | CallbackQuery query => query_from_user query
  end.

(** [run_polling]: the updates are handled one after the other; the world
    a handler leaves is the world the next one starts in. *)
Definition process (updates : list update) (w : world) : world :=
  fold_left (λ w u, exec (dispatch u) w) updates w.

(** A name that [sanitize_voice_name] lets through unchanged and
    [newvoice_command] accepts: non-empty, at most 50 characters, all of
    them word characters or hyphens. *)
Definition valid_voice_name (name : string) : Prop :=
  name ≠ ""
  ∧ (String.length name ≤ 50)%nat
  ∧ Forall (λ c, keeps c = true) (list_ascii_of_string name).

(** A storage location that is the bot's own: missing, or a directory
    the bot has every permission on that holds nothing but what
    [handle_audio] writes, regular files [<name>.wav] for valid names. *)
Definition bot_managed (d : storage) : Prop :=
  match d with
  | Missing | Uncreatable => True
  | Dir p entries =>
      p = all_permissions
      ∧ Forall (λ e, ∃ name content,
                       e = (name +:+ ".wav", RegularFile content)
                       ∧ valid_voice_name name)
               entries
  | NotADirectory | Unreachable => False
  end.

(** A storage location in which a new file can be created: missing (it is
    created first), or a directory that is writable and searchable. *)
Definition accepts_new_files (d : storage) : bool :=
  match d with
  | Missing => true
  | Dir p _ => writable p && searchable p
  | Uncreatable | NotADirectory | Unreachable => false
  end.

(** Every name that awaits an upload is a valid one. *)
Definition pending_valid (w : world) : Prop :=
  ∀ u name, awaiting_voice_upload w !! u = Some name → valid_voice_name name.

(** The node under a name of the storage location, if any. *)
Definition storage_lookup (d : storage) (name : string) : option node :=
  match d with
  | Dir _ entries => lookup_entry name entries
  | _ => None
  end.

(** Concrete runs of the dispatch. *)
Definition two_bytes : list Byte.byte := [Byte.x01; Byte.x02].

(** User 7 registers [My Voice!] and sends a voice note of ten bytes. *)
Definition register_and_upload : list update :=
  [NewvoiceCommand (text_message 7 "/newvoice My Voice!")
                   (with_args ["My"; "Voice!"]);
   AudioMessage (voice_message 7 "file-1") (bot_delivering ten_bytes)].



(* ===================================================================== *)
(** * Properties *)
(* ===================================================================== *)

(** ** Characters *)

(** Every statement about one character is decided by running through the
    256 code points. *)
Ltac each_char c :=
  destruct c as [[|] [|] [|] [|] [|] [|] [|] [|]].

Lemma keeps_unfold (c : ascii) :
  keeps c = spec_keeps c || (negb (Py.is_ascii c) && Py.isalnum c).
Proof. each_char c; reflexivity. Qed.

Lemma spec_keeps_is_ascii (c : ascii) :
  spec_keeps c = true → Py.is_ascii c = true.
Proof. each_char c; vm_compute; congruence. Qed.

Lemma keeps_not_dot (c : ascii) : keeps c = true → c ≠ "."%char.
Proof. each_char c; vm_compute; congruence. Qed.

(** The only characters that [str.lower] sends to one of [.], [w], [a],
    [v] are these and the capitals [W], [A], [V]. *)
Lemma lower_char_dot (c : ascii) :
  Py.lower_char c = "."%char ↔ c = "."%char.
Proof. each_char c; vm_compute; split; congruence. Qed.

Lemma lower_char_w (c : ascii) :
  Py.lower_char c = "w"%char ↔ c = "w"%char ∨ c = "W"%char.
Proof.
  each_char c; vm_compute; split;
    solve [ congruence | intros [?|?]; congruence | auto ].
Qed.

Lemma lower_char_a (c : ascii) :
  Py.lower_char c = "a"%char ↔ c = "a"%char ∨ c = "A"%char.
Proof.
  each_char c; vm_compute; split;
    solve [ congruence | intros [?|?]; congruence | auto ].
Qed.

Lemma lower_char_v (c : ascii) :
  Py.lower_char c = "v"%char ↔ c = "v"%char ∨ c = "V"%char.
Proof.
  each_char c; vm_compute; split;
    solve [ congruence | intros [?|?]; congruence | auto ].
Qed.

(** ** Strings as lists of characters *)

Lemma chars_re_sub (cls : ascii → bool) (s : string) :
  list_ascii_of_string (Py.re_sub_delete_outside cls s)
  = List.filter cls (list_ascii_of_string s).
Proof.
  induction s as [|c s IH]; simpl; [reflexivity|].
  destruct (cls c); simpl; now rewrite IH.
Qed.

Lemma chars_take (n : nat) (s : string) :
  list_ascii_of_string (Py.take n s) = firstn n (list_ascii_of_string s).
Proof.
  revert s; induction n as [|n IH]; intros [|c s]; simpl; try reflexivity.
  now rewrite IH.
Qed.

Lemma length_chars (s : string) :
  length (list_ascii_of_string s) = String.length s.
Proof. induction s; simpl; congruence. Qed.

Lemma length_take (n : nat) (s : string) :
  (String.length (Py.take n s) ≤ n)%nat.
Proof.
  revert s; induction n as [|n IH]; intros [|c s]; simpl; try lia.
  specialize (IH s); lia.
Qed.

Lemma re_sub_ext (f g : ascii → bool) (s : string) :
  Forall (λ c, f c = g c) (list_ascii_of_string s) →
  Py.re_sub_delete_outside f s = Py.re_sub_delete_outside g s.
Proof.
  induction s as [|c s IH]; simpl; [reflexivity|].
  intros H; inversion H as [|? ? Hc Hs]; subst.
  rewrite Hc, (IH Hs); reflexivity.
Qed.

Lemma re_sub_all (cls : ascii → bool) (s : string) :
  Forall (λ c, cls c = true)
         (list_ascii_of_string (Py.re_sub_delete_outside cls s)).
Proof.
  induction s as [|c s IH]; simpl; [constructor|].
  destruct (cls c) eqn:E; simpl; [constructor|]; assumption.
Qed.

Lemma take_all (P : ascii → Prop) (n : nat) (s : string) :
  Forall P (list_ascii_of_string s) →
  Forall P (list_ascii_of_string (Py.take n s)).
Proof.
  revert s; induction n as [|n IH]; intros [|c s] H; simpl; try constructor.
  - now inversion H.
  - apply IH; now inversion H.
Qed.

Lemma append_cons (c : ascii) (s t : string) :
  String c s +:+ t = String c (s +:+ t).
Proof. reflexivity. Qed.

Lemma append_empty_l (t : string) : "" +:+ t = t.
Proof. reflexivity. Qed.

Lemma append_cancel_l (p v v' : string) : p +:+ v = p +:+ v' → v = v'.
Proof.
  induction p as [|c p IH]; intros H.
  - exact H.
  - rewrite !append_cons in H. injection H as H. now apply IH.
Qed.

(** A sanitized name is made of word characters and hyphens. *)
Lemma sanitize_voice_name_all_kept (name : string) :
  Forall (λ c, keeps c = true)
         (list_ascii_of_string (sanitize_voice_name name)).
Proof. apply take_all, re_sub_all. Qed.

(** ** tts on the strings of the handlers *)

Lemma utf8_decode_head_encode_char (c : ascii) (bs : list Byte.byte) :
  utf8_decode_head (Py.encode_char c ++ bs) = Some (c, bs).
Proof. each_char c; reflexivity. Qed.

Lemma encode_injective (s s' : string) :
  Py.encode s = Py.encode s' → s = s'.
Proof.
  revert s'; induction s as [|c s IH]; intros [|c' s'] H; simpl in H.
  - reflexivity.
  - apply (f_equal utf8_decode_head) in H.
    rewrite utf8_decode_head_encode_char in H. discriminate.
  - apply (f_equal utf8_decode_head) in H.
    rewrite utf8_decode_head_encode_char in H. discriminate.
  - apply (f_equal utf8_decode_head) in H.
    rewrite !utf8_decode_head_encode_char in H.
    injection H as -> H. f_equal. now apply IH.
Qed.

Lemma encode_app (s t : string) :
  Py.encode (s +:+ t) = (Py.encode s ++ Py.encode t)%list.
Proof.
  induction s as [|c s IH]; [reflexivity|].
  rewrite append_cons. simpl. now rewrite IH, <- app_assoc.
Qed.

Lemma fake_audio_injective (v v' : string) :
  fake_audio v = fake_audio v' → v = v'.
Proof.
  intros H. apply encode_injective in H. now apply append_cancel_l in H.
Qed.

(** ** Strings of arbitrary code points *)

(** Arithmetic with the quotients and remainders of the UTF-8 layout. *)
Ltac euclid := zify; Z.to_euclidean_division_equations; lia.

(** Decides the comparisons of a goal, closing the impossible cases. *)
Ltac compare_codes :=
  repeat match goal with
    | |- context [(?a <? ?b)%N] => destruct (N.ltb_spec a b); try euclid
    | |- context [(?a <=? ?b)%N] => destruct (N.leb_spec a b); try euclid
    | |- context [(?a =? ?b)%N] => destruct (N.eqb_spec a b); try euclid
    end.

Lemma codes_app (s t : string) :
  Unicode.codes (s +:+ t) = Unicode.codes s ++ Unicode.codes t.
Proof.
  unfold Unicode.codes. induction s as [|c s IH]; [reflexivity|].
  rewrite append_cons. simpl. now rewrite IH.
Qed.

(** On the code points of the handlers' strings the character class of
    line 70 is the one of the handlers, whatever the table says. *)
Lemma keeps_codes (beyond_latin1 : N → bool) (c : ascii) :
  Unicode.keeps beyond_latin1 (N_of_ascii c) = keeps c.
Proof. each_char c; reflexivity. Qed.

Lemma keeps_code_unfold (beyond_latin1 : N → bool) (c : N) :
  Unicode.keeps beyond_latin1 c
  = Unicode.spec_keeps c
    || ((128 <=? c)%N && Unicode.isalnum beyond_latin1 c).
Proof.
  destruct (N.ltb_spec c 256) as [Hlt|Hge].
  - rewrite <- (N_ascii_embedding c Hlt). generalize (ascii_of_N c).
    intros a. each_char a; reflexivity.
  - unfold Unicode.keeps, Unicode.is_word, Unicode.isalnum,
      Unicode.spec_keeps, Py.in_range.
    compare_codes; simpl; now rewrite ?orb_false_r.
Qed.



Lemma sanitize_voice_name_codes (beyond_latin1 : N → bool) (s : string) :
  Unicode.codes (sanitize_voice_name s)
  = Unicode.sanitize_voice_name beyond_latin1 (Unicode.codes s).
Proof.
  unfold sanitize_voice_name, Unicode.sanitize_voice_name, Unicode.codes,
    Py.slice_to.
  change (Z.to_nat 50) with 50%nat.
  rewrite chars_take, chars_re_sub, List.filter_map_swap, List.firstn_map.
  do 2 f_equal. apply filter_ext. intros c. symmetry. apply keeps_codes.
Qed.

(** C3, as amended: for every input string, [sanitize_voice_name] returns
    the input with every character removed that is not a word character of
    [\w] (an ASCII letter, an ASCII digit, an underscore, or a non-ASCII
    alphanumeric character) or a hyphen, truncated to at most 50
    characters.  On an input made of ASCII characters only, this is the
    rule of the specification.  The strings of the handlers are sanitized
    by the same rule. *)
Theorem sanitize_voice_name_keeps_word_characters
    (beyond_latin1 : N → bool) (name : list N) :
  Unicode.sanitize_voice_name beyond_latin1 name
  = firstn 50
      (List.filter
         (λ c, Unicode.spec_keeps c
               || ((128 <=? c)%N && Unicode.isalnum beyond_latin1 c))
         name)
  ∧ (length (Unicode.sanitize_voice_name beyond_latin1 name) ≤ 50)%nat
  ∧ (Forall (λ c, (c < 128)%N) name →
     Unicode.sanitize_voice_name beyond_latin1 name
     = Unicode.spec_sanitize name)
  ∧ (∀ s : string,
       Unicode.codes (sanitize_voice_name s)
       = Unicode.sanitize_voice_name beyond_latin1 (Unicode.codes s)).
Proof.
  unfold Unicode.sanitize_voice_name, Unicode.spec_sanitize.
  split; [|split; [|split]].
  - f_equal. apply filter_ext. intros c. apply keeps_code_unfold.
  - apply List.firstn_le_length.
  - intros Hascii. f_equal. apply filter_ext_in. intros c Hin.
    rewrite keeps_code_unfold.
    pose proof (proj1 (List.Forall_forall _ name) Hascii c Hin) as Hc.
    simpl in Hc. destruct (N.leb_spec 128 c); [lia|].
    apply orb_false_r.
  - apply sanitize_voice_name_codes.
Qed.

(** C3, as stated, fails: U+00E9 is not ASCII, and it survives. *)
Lemma sanitize_voice_name_keeps_e_acute :
  Py.is_ascii "233"%char = false
  ∧ sanitize_voice_name ("Zo" +:+ String "233"%char "!")
    = "Zo" +:+ String "233"%char ""
  ∧ spec_sanitize ("Zo" +:+ String "233"%char "!") = "Zo".
Proof. repeat split. Qed.

(** *** UTF-8 *)

Lemma to_N_byte (n : N) : (n < 256)%N → Byte.to_N (Unicode.byte n) = n.
Proof.
  intros Hn. unfold Unicode.byte. destruct (Byte.of_N n) as [b|] eqn:E.
  - now apply Byte.to_of_N.
  - apply Byte.of_N_None_iff in E. lia.
Qed.

(** The first character of a byte string is read back from its bytes. *)
Lemma decode_head_encode_char (c : N) (bs rest : list Byte.byte) :
  Unicode.is_code_point c = true →
  Unicode.encode_char c = Ret bs →
  Unicode.decode_head (bs ++ rest) = Some (c, rest).
Proof.
  unfold Unicode.is_code_point, Unicode.encode_char, Unicode.is_surrogate,
    Py.in_range.
  intros Hc. apply N.ltb_lt in Hc.
  destruct (N.ltb_spec c 128);
    [|destruct (N.ltb_spec c 2048);
      [|destruct ((55296 <=? c)%N && (c <=? 57343)%N);
        [discriminate|destruct (N.ltb_spec c 65536)]]];
    intros [= <-]; cbn [app]; unfold Unicode.decode_head;
    rewrite !to_N_byte by euclid;
    compare_codes; do 2 f_equal; euclid.
Qed.

Lemma encode_char_nonempty (c : N) (bs : list Byte.byte) :
  Unicode.encode_char c = Ret bs → bs ≠ [].
Proof.
  unfold Unicode.encode_char.
  repeat match goal with |- context [if ?b then _ else _] => destruct b end;
    intros [= <-]; discriminate.
Qed.

Lemma encode_char_raises (c : N) (e : exn) :
  Unicode.encode_char c = Raise e →
  e = UnicodeEncodeError ∧ Unicode.is_surrogate c = true.
Proof.
  unfold Unicode.encode_char.
  destruct (c <? 128)%N; [discriminate|].
  destruct (c <? 2048)%N; [discriminate|].
  destruct (Unicode.is_surrogate c); [now intros [= <-]|].
  destruct (c <? 65536)%N; discriminate.
Qed.

Lemma encode_char_surrogate (c : N) :
  Unicode.is_surrogate c = true →
  Unicode.encode_char c = Raise UnicodeEncodeError.
Proof.
  unfold Unicode.encode_char. intros Hs. rewrite Hs.
  unfold Unicode.is_surrogate, Py.in_range in Hs.
  apply andb_true_iff in Hs as [Hlo Hhi]. apply N.leb_le in Hlo.
  now compare_codes.
Qed.

(** [encode] loses nothing: a byte string is the encoding of one string
    at most. *)
Lemma encode_code_points_injective (s s' : list N) (bs : list Byte.byte) :
  Forall (λ c, Unicode.is_code_point c = true) s →
  Forall (λ c, Unicode.is_code_point c = true) s' →
  Unicode.encode s = Ret bs → Unicode.encode s' = Ret bs → s = s'.
Proof.
  intros Hs. revert s' bs.
  induction Hs as [|c s Hc Hs IH]; intros s' bs Hs';
    destruct Hs' as [|c' s' Hc' Hs']; simpl.
  - reflexivity.
  - intros [= <-].
    destruct (Unicode.encode_char c') as [b|] eqn:Eb; [|discriminate].
    destruct (Unicode.encode s'); [|discriminate]. intros [= H].
    apply encode_char_nonempty in Eb.
    apply app_eq_nil in H as [? _]. contradiction.
  - destruct (Unicode.encode_char c) as [b|] eqn:Eb; [|discriminate].
    destruct (Unicode.encode s); [|discriminate]. intros [= <-] [= H].
    apply encode_char_nonempty in Eb. symmetry in H.
    apply app_eq_nil in H as [? _]. contradiction.
  - destruct (Unicode.encode_char c) as [b|] eqn:Eb; [|discriminate].
    destruct (Unicode.encode s) as [r|] eqn:Er; [|discriminate].
    destruct (Unicode.encode_char c') as [b'|] eqn:Eb'; [|discriminate].
    destruct (Unicode.encode s') as [r'|] eqn:Er'; [|discriminate].
    intros [= <-] [= H].
    apply (f_equal Unicode.decode_head) in H.
    rewrite (decode_head_encode_char c' b' r' Hc' Eb') in H.
    rewrite (decode_head_encode_char c b r Hc Eb) in H.
    injection H as -> ->. f_equal. now apply (IH s' r).
Qed.

Lemma encode_code_points_app (s t : list N) :
  Unicode.encode (s ++ t)
  = match Unicode.encode s with
    | Raise e => Raise e
    | Ret bs =>
        match Unicode.encode t with
        | Raise e => Raise e
        | Ret bt => Ret (bs ++ bt)
        end
    end.
Proof.
  induction s as [|c s IH]; simpl.
  - now destruct (Unicode.encode t).
  - destruct (Unicode.encode_char c) as [b|]; [|reflexivity].
    rewrite IH. destruct (Unicode.encode s); [|reflexivity].
    destruct (Unicode.encode t); [|reflexivity].
    now rewrite app_assoc.
Qed.

(** On the strings of the handlers, [encode] is the encoding of the
    handlers, and returns. *)
Lemma encode_codes (s : string) :
  Unicode.encode (Unicode.codes s) = Ret (Py.encode s).
Proof.
  unfold Unicode.codes. induction s as [|c s IH]; [reflexivity|].
  cbn [list_ascii_of_string List.map Unicode.encode Py.encode]. rewrite IH.
  assert (Unicode.encode_char (N_of_ascii c) = Ret (Py.encode_char c)) as ->
    by (each_char c; reflexivity).
  reflexivity.
Qed.

Lemma encode_returns (s : list N) :
  Forall (λ c, Unicode.is_surrogate c = false) s →
  ∃ bs, Unicode.encode s = Ret bs.
Proof.
  induction 1 as [|c s Hc Hs [bs IH]]; simpl; [eauto|].
  destruct (Unicode.encode_char c) as [b|e] eqn:E.
  - rewrite IH. eauto.
  - apply encode_char_raises in E as [_ E]. congruence.
Qed.

Lemma encode_raises (s : list N) :
  Exists (λ c, Unicode.is_surrogate c = true) s →
  Unicode.encode s = Raise UnicodeEncodeError.
Proof.
  induction 1 as [c s Hc|c s Hs IH]; simpl.
  - now rewrite (encode_char_surrogate c Hc).
  - destruct (Unicode.encode_char c) as [b|e] eqn:E.
    + now rewrite IH.
    + now apply encode_char_raises in E as [-> _].
Qed.

Lemma tts_code_points (voice_name text : list N) :
  Unicode.tts voice_name text
  = match Unicode.encode voice_name with
    | Ret bs => Ret (Py.encode "FAKE_AUDIO_FOR_" ++ bs)
    | Raise e => Raise e
    end.
Proof.
  unfold Unicode.tts. rewrite encode_code_points_app, encode_codes.
  reflexivity.
Qed.

(** C9, as amended: the stub's output does not depend on the text.  For a
    voice name that [str.encode] accepts it returns the UTF-8 encoding of
    [FAKE_AUDIO_FOR_] followed by the voice name, so two calls return the
    same bytes exactly when their voice names are the same; for a voice
    name with a lone surrogate (the stem of a file whose name is not
    UTF-8), [str.encode] raises [UnicodeEncodeError], and [tts] with it.
    On the strings of the handlers, [tts] returns these bytes. *)
Theorem tts_output_determined_by_voice_name
    (voice_name voice_name' text text' : list N) :
  Unicode.tts voice_name text = Unicode.tts voice_name text'
  ∧ Unicode.tts voice_name text
    = match Unicode.encode voice_name with
      | Ret bs => Ret (Py.encode "FAKE_AUDIO_FOR_" ++ bs)
      | Raise e => Raise e
      end
  ∧ (Forall (λ c, Unicode.is_surrogate c = false) voice_name →
     ∃ bs, Unicode.encode voice_name = Ret bs)
  ∧ (Exists (λ c, Unicode.is_surrogate c = true) voice_name →
     Unicode.tts voice_name text = Raise UnicodeEncodeError)
  ∧ (Forall (λ c, Unicode.is_code_point c = true) voice_name →
     Forall (λ c, Unicode.is_code_point c = true) voice_name' →
     ∀ audio, Unicode.tts voice_name text = Ret audio →
              (Unicode.tts voice_name' text' = Ret audio
               ↔ voice_name = voice_name'))
  ∧ (∀ (v t : string) (w : world),
       result (tts v t) w = Unicode.tts (Unicode.codes v) (Unicode.codes t)
       ∧ result (tts v t) w
         = Ret (Py.encode "FAKE_AUDIO_FOR_" ++ Py.encode v)).
Proof.
  split; [reflexivity|]. split; [apply tts_code_points|].
  split; [apply encode_returns|].
  split; [intros Hs; now rewrite tts_code_points, (encode_raises _ Hs)|].
  split.
  - intros Hv Hv' audio. rewrite !tts_code_points.
    destruct (Unicode.encode voice_name) as [bs|] eqn:E; [|discriminate].
    intros [= <-]. split.
    + destruct (Unicode.encode voice_name') as [bs'|] eqn:E';
        [|discriminate].
      intros [= ->].
      symmetry. now apply (encode_code_points_injective _ _ bs).
    + intros <-. now rewrite E.
  - intros v t w. rewrite tts_code_points, encode_codes.
    unfold result. simpl. unfold fake_audio. now rewrite encode_app.
Qed.

(** C9, as stated, fails: two voice names, one text, two different
    byte sequences. *)
Lemma tts_alice_bob :
  result (tts "alice" "hello") (initial_world Missing)
  = Ret (Py.encode "FAKE_AUDIO_FOR_alice")
  ∧ result (tts "bob" "hello") (initial_world Missing)
    = Ret (Py.encode "FAKE_AUDIO_FOR_bob")
  ∧ result (tts "alice" "hello") (initial_world Missing)
    ≠ result (tts "bob" "hello") (initial_world Missing).
Proof. repeat split. discriminate. Qed.

(** The stem [Zo\udce9] of a file whose name ends in the byte E9: nothing
    is returned. *)
Example tts_lone_surrogate :
  Unicode.is_surrogate 56553 = true
  ∧ Unicode.tts (Unicode.codes "Zo" ++ [56553%N]) (Unicode.codes "hello")
    = Raise UnicodeEncodeError.
Proof. split; reflexivity. Qed.

(** ** Paths: suffix and stem *)

Lemma length_app (s t : string) :
  String.length (s +:+ t) = (String.length s + String.length t)%nat.
Proof.
  induction s as [|c s IH]; [reflexivity|].
  rewrite append_cons. simpl. now rewrite IH.
Qed.

Lemma take_drop (n : nat) (s : string) : Py.take n s +:+ Py.drop n s = s.
Proof.
  revert s; induction n as [|n IH]; intros [|c s]; try reflexivity.
  simpl. rewrite append_cons. now rewrite IH.
Qed.

Lemma take_app_length (s t : string) : Py.take (String.length s) (s +:+ t) = s.
Proof.
  induction s as [|c s IH]; [now destruct t|].
  rewrite append_cons. simpl. now rewrite IH.
Qed.

Lemma drop_app_length (s t : string) : Py.drop (String.length s) (s +:+ t) = t.
Proof.
  induction s as [|c s IH]; [now destruct t|].
  rewrite append_cons. simpl. exact IH.
Qed.

Lemma rfind_range (ch : ascii) (s : string) :
  -1 ≤ Py.rfind ch s < Py.len s.
Proof.
  unfold Py.len. induction s as [|c s IH]; simpl; [lia|].
  destruct (0 <=? Py.rfind ch s) eqn:E.
  - apply Z.leb_le in E. lia.
  - destruct (Ascii.eqb c ch); lia.
Qed.

(** The last occurrence in a concatenation is the last occurrence in the
    right part, when there is one. *)
Lemma rfind_app (ch : ascii) (s t : string) :
  Py.rfind ch (s +:+ t)
  = if 0 <=? Py.rfind ch t then Py.len s + Py.rfind ch t else Py.rfind ch s.
Proof.
  unfold Py.len. induction s as [|c s IH].
  - rewrite append_empty_l. simpl.
    destruct (0 <=? Py.rfind ch t) eqn:E; [lia|].
    apply Z.leb_gt in E. pose proof (rfind_range ch t). lia.
  - rewrite append_cons. cbn [Py.rfind]. rewrite IH.
    destruct (0 <=? Py.rfind ch t) eqn:E.
    + apply Z.leb_le in E.
      replace (0 <=? Z.of_nat (String.length s) + Py.rfind ch t) with true
        by (symmetry; apply Z.leb_le; lia).
      cbn [String.length]. lia.
    + reflexivity.
Qed.

(** A string without the character. *)
Lemma rfind_absent (ch : ascii) (s : string) :
  Forall (λ c, c ≠ ch) (list_ascii_of_string s) → Py.rfind ch s = -1.
Proof.
  induction s as [|c s IH]; simpl; [reflexivity|].
  intros H; inversion H as [|? ? Hc Hs]; subst.
  rewrite (IH Hs). simpl.
  destruct (Ascii.eqb_spec c ch); congruence.
Qed.

Lemma is_wav_suffix_In (sfx : string) :
  is_wav_suffix sfx = true ↔ In sfx wav_suffixes.
Proof.
  unfold is_wav_suffix. rewrite existsb_exists. split.
  - intros (x & Hx & E). apply String.eqb_eq in E. now subst.
  - intros H. exists sfx. split; [assumption|apply String.eqb_refl].
Qed.

(** [sfx.lower() == ".wav"] holds for the eight case variants only. *)
Lemma lower_is_wav (sfx : string) :
  String.eqb (Py.lower sfx) ".wav" = is_wav_suffix sfx.
Proof.
  apply eq_true_iff_eq. rewrite String.eqb_eq, is_wav_suffix_In. split.
  - destruct sfx as [|c0 [|c1 [|c2 [|c3 [|c4 s]]]]]; simpl; try discriminate.
    intros H; injection H as H0 H1 H2 H3.
    apply (proj1 (lower_char_dot _)) in H0.
    apply (proj1 (lower_char_w _)) in H1.
    apply (proj1 (lower_char_a _)) in H2.
    apply (proj1 (lower_char_v _)) in H3. subst c0.
    destruct H1 as [-> | ->], H2 as [-> | ->], H3 as [-> | ->];
      simpl; tauto.
  - intros H. simpl in H.
    repeat (destruct H as [<- | H]; [reflexivity|]). contradiction.
Qed.

Lemma wav_suffix_shape (sfx : string) :
  In sfx wav_suffixes →
  String.length sfx = 4%nat ∧ Py.rfind "."%char sfx = 0.
Proof.
  intros H. simpl in H.
  repeat (destruct H as [<- | H]; [split; reflexivity|]). contradiction.
Qed.

(** The suffix and the stem of [v.ext], for a non-empty [v] and a case
    variant [ext] of [.wav]. *)
Lemma suffix_stem_of_wav (v ext : string) :
  v ≠ "" → In ext wav_suffixes →
  PurePath.suffix (v +:+ ext) = ext ∧ PurePath.stem (v +:+ ext) = v.
Proof.
  intros Hv Hext. destruct (wav_suffix_shape ext Hext) as [Hlen Hdot].
  unfold PurePath.suffix, PurePath.stem.
  rewrite rfind_app, Hdot, Z.leb_refl, Z.add_0_r. unfold Py.len. rewrite length_app, Hlen.
  assert (0 < String.length v)%nat by (destruct v; simpl; [congruence|lia]).
  assert ((0 <? Z.of_nat (String.length v))
          && (Z.of_nat (String.length v)
              <? Z.of_nat (String.length v + 4) - 1) = true) as ->.
  { apply andb_true_iff; split; apply Z.ltb_lt; lia. }
  unfold Py.slice_from, Py.slice_to. rewrite Nat2Z.id.
  now rewrite drop_app_length, take_app_length.
Qed.

(** Conversely, a name whose suffix is a case variant of [.wav] is its
    non-empty stem followed by that suffix. *)
Lemma wav_name_split (name : string) :
  In (PurePath.suffix name) wav_suffixes →
  name = PurePath.stem name +:+ PurePath.suffix name
  ∧ PurePath.stem name ≠ "".
Proof.
  unfold PurePath.suffix, PurePath.stem.
  destruct ((0 <? Py.rfind "."%char name)
            && (Py.rfind "."%char name <? Py.len name - 1)) eqn:E.
  - intros _. apply andb_true_iff in E as [E1 E2].
    apply Z.ltb_lt in E1. apply Z.ltb_lt in E2.
    unfold Py.slice_from, Py.slice_to. split.
    + symmetry. apply take_drop.
    + destruct name as [|c name]; [unfold Py.len in E2; simpl in E2; lia|].
      destruct (Z.to_nat (Py.rfind "."%char (String c name))) eqn:En; [lia|].
      simpl. discriminate.
  - intros H. simpl in H.
    repeat (destruct H as [H | H]; [discriminate|]). contradiction.
Qed.

(** ** get_available_voices *)

Lemma wav_stems_searchable
    (p : permissions) (entries es : list (string * node)) :
  searchable p = true → wav_stems (Dir p entries) es = Ret (wav_voices es).
Proof.
  intros Hx. induction es as [|[name f] rest IH]; simpl; [reflexivity|].
  rewrite Hx, IH, lower_is_wav. unfold wav_voices. simpl.
  now destruct (is_file f && is_wav_suffix (PurePath.suffix name)).
Qed.

Lemma wav_stems_unsearchable
    (p : permissions) (entries es : list (string * node)) :
  searchable p = false →
  wav_stems (Dir p entries) es
  = match es with
    | [] => Ret []
    | _ => Raise OSError
    end.
Proof. intros Hx. destruct es as [|[name f] rest]; simpl; now rewrite ?Hx. Qed.

(** A voice is listed exactly when the directory can be read and searched
    and a regular file [v.ext] is there, [v] non-empty and [ext] a case
    variant of [.wav]. *)
Lemma listed_voices_In (d : storage) (v : string) :
  In v (listed_voices d) ↔
  ∃ p entries ext content,
    d = Dir p entries
    ∧ readable p = true ∧ searchable p = true
    ∧ In (v +:+ ext, RegularFile content) entries
    ∧ v ≠ "" ∧ In ext wav_suffixes.
Proof.
  split.
  - destruct d as [| | | |p entries]; simpl; try contradiction.
    destruct (readable p) eqn:Hr, (searchable p) eqn:Hx; simpl;
      try contradiction.
    unfold wav_voices. rewrite in_map_iff. intros ([name f] & Hstem & Hin).
    apply filter_In in Hin as [Hin Hok]. simpl in *.
    apply andb_true_iff in Hok as [Hfile Hsfx].
    apply is_wav_suffix_In in Hsfx.
    destruct (wav_name_split name Hsfx) as [Hname Hne].
    destruct f as [content|]; [|discriminate].
    exists p, entries, (PurePath.suffix name), content.
    subst v. rewrite <- Hname. auto 10.
  - intros (p & entries & ext & content & -> & Hr & Hx & Hin & Hv & Hext).
    simpl. rewrite Hr, Hx. simpl.
    destruct (suffix_stem_of_wav v ext Hv Hext) as [Hsfx Hstem].
    apply in_map_iff. exists (v +:+ ext, RegularFile content). simpl.
    split; [assumption|]. apply filter_In. split; [assumption|]. simpl.
    rewrite Hsfx. now apply is_wav_suffix_In.
Qed.

(** What a call of [get_available_voices] comes to: the exception of
    [exists] when the location cannot be reached, the listing otherwise;
    nothing changes but the log. *)
Lemma get_available_voices_run (w : world) :
  ∃ w',
    get_available_voices w = (listing_outcome (voice_dir w), w')
    ∧ (w' = w ∨ w' = push_logged ERROR ErrorListingVoices w).
Proof.
  unfold get_available_voices, listing_outcome, bind, get_world, try_except,
    lift, ret, logger, modify.
  destruct (voice_dir w) as [| | | |p entries] eqn:E; simpl;
    try (eexists; split; [reflexivity|]; auto).
  destruct (readable p) eqn:Hr; simpl;
    [|eexists; split; [reflexivity|]; auto].
  destruct (searchable p) eqn:Hx; simpl.
  - rewrite wav_stems_searchable by assumption.
    eexists; split; [reflexivity|]; auto.
  - rewrite wav_stems_unsearchable by assumption.
    destruct entries; simpl; eexists; (split; [reflexivity|]); auto.
Qed.

(** Listing changes nothing but the log. *)
Lemma get_available_voices_frame (w : world) :
  ∃ w',
    get_available_voices w = (listing_outcome (voice_dir w), w')
    ∧ user_selected_voice w' = user_selected_voice w
    ∧ awaiting_voice_upload w' = awaiting_voice_upload w
    ∧ voice_dir w' = voice_dir w
    ∧ sent w' = sent w.
Proof.
  destruct (get_available_voices_run w) as (w' & Hrun & [-> | ->]);
    eexists; (split; [exact Hrun|]); repeat split; reflexivity.
Qed.

Lemma get_available_voices_result (w : world) :
  result get_available_voices w = listing_outcome (voice_dir w).
Proof.
  destruct (get_available_voices_run w) as (w' & Hrun & _).
  unfold result. now rewrite Hrun.
Qed.


Lemma listing_outcome_reachable (d : storage) :
  d ≠ Unreachable → listing_outcome d = Ret (listed_voices d).
Proof. destruct d; simpl; congruence. Qed.

(** C6: the catalog listing raises to its caller when the storage location
    cannot be reached.  [VOICE_DIR.exists()] of line 55 stands before the
    [try] of line 57: its [PermissionError] is neither caught nor logged,
    where the [except OSError] written for the listing returns the empty
    list. *)
Theorem get_available_voices_raises_when_unreachable :
  result get_available_voices (initial_world Unreachable) = Raise OSError
  ∧ dir_exists Unreachable = Raise OSError
  ∧ logged (exec get_available_voices (initial_world Unreachable)) = []
  ∧ result get_available_voices (initial_world NotADirectory) = Ret []
  ∧ logged (exec get_available_voices (initial_world NotADirectory))
    = [(ERROR, ErrorListingVoices)].
Proof. repeat split. Qed.

(** X19: wherever the storage location can be reached, the listing is
    returned, never raised: the stems of the regular files whose suffix is
    [.wav] in any mix of cases, in enumeration order (subdirectories and
    other files left out), when the directory can be read and searched,
    and the empty list otherwise; neither dict, nor the storage, nor what
    was sent changes. *)
Theorem get_available_voices_lists_what_it_reaches (w : world) :
  voice_dir w ≠ Unreachable →
  result get_available_voices w = Ret (listed_voices (voice_dir w))
  ∧ (∀ v, In v (listed_voices (voice_dir w)) ↔
          ∃ p entries ext content,
            voice_dir w = Dir p entries
            ∧ readable p = true ∧ searchable p = true
            ∧ In (v +:+ ext, RegularFile content) entries
            ∧ v ≠ "" ∧ In ext wav_suffixes)
  ∧ (∀ entries, listed_voices (Listing entries) = wav_voices entries)
  ∧ listed_voices Missing = [] ∧ listed_voices Uncreatable = []
  ∧ listed_voices NotADirectory = []
  ∧ (∀ p entries, readable p && searchable p = false →
                  listed_voices (Dir p entries) = [])
  ∧ user_selected_voice (exec get_available_voices w) = user_selected_voice w
  ∧ awaiting_voice_upload (exec get_available_voices w)
    = awaiting_voice_upload w
  ∧ voice_dir (exec get_available_voices w) = voice_dir w
  ∧ sent (exec get_available_voices w) = sent w.
Proof.
  intros Hreach.
  destruct (get_available_voices_frame w)
    as (w' & Hrun & Hsel & Haw & Hdir & Hsent).
  unfold result, exec. rewrite Hrun. simpl.
  split; [now apply listing_outcome_reachable|].
  split; [intros v; apply listed_voices_In|].
  split; [reflexivity|]. split; [reflexivity|]. split; [reflexivity|].
  split; [reflexivity|].
  split; [intros p entries Hp; simpl; now rewrite Hp|].
  repeat split; assumption.
Qed.

(** X19 at the catalog of [alice] and [bob]. *)
Lemma get_available_voices_lists_what_it_reaches_witness :
  voice_dir (initial_world catalog_alice_bob) ≠ Unreachable
  ∧ result get_available_voices (initial_world catalog_alice_bob)
    = Ret ["alice"; "bob"].
Proof.
  split; [discriminate|].
  exact (proj1 (get_available_voices_lists_what_it_reaches
                  (initial_world catalog_alice_bob) ltac:(discriminate))).
Defined.

(** ** Running a handler *)

(** Unfolds the monad down to the function on worlds. *)
Ltac run :=
  unfold exec, result, bind, get_world, modify, lift, ret, raise,
    try_except, reply_text, reply_voice, edit_message_text, query_answer,
    send_chat_action_record_voice, logger;
  simpl.

Lemma registration_of_Idle (w : world) (u : Z) :
  registration_of w u = Idle ↔ awaiting_voice_upload w !! u = None.
Proof.
  unfold registration_of. destruct (awaiting_voice_upload w !! u); split;
    congruence.
Qed.

Lemma registration_of_AwaitingUpload (w : world) (u : Z) (name : string) :
  registration_of w u = AwaitingUpload name
  ↔ awaiting_voice_upload w !! u = Some name.
Proof.
  unfold registration_of. destruct (awaiting_voice_upload w !! u); split;
    congruence.
Qed.

(** ** handle_audio without a registration *)

(** C7: for a user who is not awaiting an upload, an inbound audio message
    is answered with the guidance to use [/newvoice] first, and changes
    neither the pending-registration dict, nor the selection dict, nor the
    storage (no file is written). *)
Theorem handle_audio_without_registration
    (w : world) (msg : message) (ctx : context) :
  registration_of w (from_user msg) = Idle →
  result (handle_audio msg ctx) w = Ret tt
  ∧ sent (exec (handle_audio msg ctx) w)
    = sent w ++ [ReplyText msg_use_newvoice_first]
  ∧ awaiting_voice_upload (exec (handle_audio msg ctx) w)
    = awaiting_voice_upload w
  ∧ user_selected_voice (exec (handle_audio msg ctx) w)
    = user_selected_voice w
  ∧ voice_dir (exec (handle_audio msg ctx) w) = voice_dir w
  ∧ logged (exec (handle_audio msg ctx) w) = logged w.
Proof.
  intros Hidle. apply registration_of_Idle in Hidle.
  unfold handle_audio. run. rewrite Hidle. simpl. repeat split.
Qed.

(** ** handle_text while an upload is awaited *)

(** Every call of [tts] leaves its record in the log. *)
Lemma tts_logs (voice_name txt : string) (w : world) :
  logged (exec (tts voice_name txt) w)
  = logged w ++ [(INFO, TtsCalled voice_name (Py.slice_to 30 txt))].
Proof. reflexivity. Qed.

(** C8: for a user in [AwaitingUpload name], a text message leaves the
    state at [AwaitingUpload name], is answered with the message that an
    audio file is awaited for [name] and that a voice message or a [.wav]
    file is to be sent, and is not passed to speech synthesis: nothing but
    that reply is sent, and the log, where every call of [tts] leaves a
    record, is unchanged. *)
Theorem handle_text_while_awaiting_upload
    (w : world) (msg : message) (ctx : context) (name : string) :
  registration_of w (from_user msg) = AwaitingUpload name →
  result (handle_text msg ctx) w = Ret tt
  ∧ registration_of (exec (handle_text msg ctx) w) (from_user msg)
    = AwaitingUpload name
  ∧ sent (exec (handle_text msg ctx) w)
    = sent w ++ [ReplyText (msg_waiting_for_audio name)]
  ∧ msg_waiting_for_audio name
    = "I'm currently waiting for an audio file for the voice '" +:+ name
      +:+ "'." +:+ nl
      +:+ "Please send a voice message or a .wav file. If you want to cancel, use /cancel (not implemented yet), or just send text after a while."
  ∧ logged (exec (handle_text msg ctx) w) = logged w
  ∧ awaiting_voice_upload (exec (handle_text msg ctx) w)
    = awaiting_voice_upload w
  ∧ user_selected_voice (exec (handle_text msg ctx) w)
    = user_selected_voice w
  ∧ voice_dir (exec (handle_text msg ctx) w) = voice_dir w.
Proof.
  intros Hawait. pose proof Hawait as Hreg.
  apply registration_of_AwaitingUpload in Hawait.
  unfold handle_text. run. rewrite Hawait. simpl.
  repeat split. unfold registration_of. simpl. now rewrite Hawait.
Qed.

(** ** button_handler *)

(** C10: a button press leaves the pending-registration dict unchanged, so
    every user keeps their registration state, and it writes no entry of
    the selection dict but the pressing user's; a press that selects a
    voice stores the name after the prefix for that user. *)
Theorem button_handler_leaves_pending_unchanged
    (w : world) (query : callback_query) :
  result (button_handler query) w = Ret tt
  ∧ awaiting_voice_upload (exec (button_handler query) w)
    = awaiting_voice_upload w
  ∧ (∀ u, registration_of (exec (button_handler query) w) u
          = registration_of w u)
  ∧ (∀ u, u ≠ query_from_user query →
          user_selected_voice (exec (button_handler query) w) !! u
          = user_selected_voice w !! u)
  ∧ voice_dir (exec (button_handler query) w) = voice_dir w
  ∧ (Py.startswith CALLBACK_PREFIX_VOICE (data query) = true →
     user_selected_voice (exec (button_handler query) w)
     = <[query_from_user query :=
           Py.slice_from (Py.len CALLBACK_PREFIX_VOICE) (data query)]>
         (user_selected_voice w))
  ∧ (Py.startswith CALLBACK_PREFIX_VOICE (data query) = false →
     user_selected_voice (exec (button_handler query) w)
     = user_selected_voice w).
Proof.
  unfold button_handler.
  destruct (Py.startswith CALLBACK_PREFIX_VOICE (data query)) eqn:E; run;
    repeat split; try congruence.
  intros u Hu. now rewrite lookup_insert_ne.
Qed.

(** ** The texts of the replies are told apart by their first characters *)

Lemma reply_texts_differ (name name' : string) :
  msg_preparing name ≠ msg_usage
  ∧ msg_preparing name ≠ msg_invalid_name
  ∧ msg_preparing name ≠ msg_already_exists name'
  ∧ msg_invalid_name ≠ msg_already_exists name'
  ∧ msg_usage ≠ msg_invalid_name
  ∧ msg_usage ≠ msg_already_exists name'
  ∧ msg_added name ≠ msg_error_saving name'
  ∧ msg_added name ≠ msg_no_audio
  ∧ msg_error_saving name ≠ msg_no_audio.
Proof.
  repeat split; intros H; apply (f_equal (first_chars 3)) in H;
    vm_compute in H; discriminate.
Qed.

Lemma truthy_nonempty (s : string) : Py.truthy s = true ↔ s ≠ "".
Proof. destruct s; simpl; split; congruence. Qed.

Lemma truthy_empty (s : string) : Py.truthy s = false ↔ s = "".
Proof. destruct s; simpl; split; congruence. Qed.

(** ** newvoice_command *)

Lemma newvoice_command_run (w : world) (msg : message) (ctx : context) :
  let name := sanitize_voice_name (Py.join " " (args ctx)) in
  newvoice_command msg ctx w
  = match args ctx with
    | [] => (Ret tt, push_sent (ReplyText msg_usage) w)
    | _ =>
        if negb (Py.truthy name)
        then (Ret tt, push_sent (ReplyText msg_invalid_name) w)
        else
          match path_exists (voice_dir w) (name +:+ ".wav") with
          | Raise e => (Raise e, w)
          | Ret true =>
              (Ret tt, push_sent (ReplyText (msg_already_exists name)) w)
          | Ret false =>
              (Ret tt,
               push_sent (ReplyText (msg_preparing name))
                 (set_awaiting (λ m, <[from_user msg := name]> m) w))
          end
    end.
Proof.
  intros name. unfold newvoice_command. fold name.
  destruct (args ctx) as [|a rest]; [reflexivity|].
  destruct (negb (Py.truthy name)); [reflexivity|].
  unfold bind, get_world, lift.
  destruct (path_exists (voice_dir w) (name +:+ ".wav")) as [[|]|e];
    reflexivity.
Qed.

(** An accepted registration: the name is stored for the sender, the
    storage is not touched. *)
Lemma newvoice_command_accepts
    (w : world) (msg : message) (ctx : context) :
  let name := sanitize_voice_name (Py.join " " (args ctx)) in
  let w' := exec (newvoice_command msg ctx) w in
  name ≠ "" →
  path_exists (voice_dir w) (name +:+ ".wav") = Ret false →
  awaiting_voice_upload w'
  = <[from_user msg := name]> (awaiting_voice_upload w)
  ∧ voice_dir w' = voice_dir w.
Proof.
  intros name w' Hname Hfree.
  pose proof (newvoice_command_run w msg ctx) as Hrun. cbv zeta in Hrun.
  fold name in Hrun. unfold w', exec. rewrite Hrun. simpl.
  apply truthy_nonempty in Hname. rewrite Hname, Hfree. simpl.
  destruct (args ctx); [|split; reflexivity].
  exfalso. unfold name in Hname. discriminate.
Qed.

(** The preparing text is sent for an accepted registration only. *)
Lemma newvoice_command_accepted
    (w : world) (msg : message) (ctx : context) :
  let name := sanitize_voice_name (Py.join " " (args ctx)) in
  let w' := exec (newvoice_command msg ctx) w in
  sent w' = sent w ++ [ReplyText (msg_preparing name)] →
  name ≠ "" ∧ path_exists (voice_dir w) (name +:+ ".wav") = Ret false.
Proof.
  intros name w'.
  pose proof (newvoice_command_run w msg ctx) as Hrun. cbv zeta in Hrun.
  fold name in Hrun. unfold w', exec. rewrite Hrun. simpl.
  destruct (reply_texts_differ name name) as (Hpu & Hpi & Hpa & _).
  destruct (args ctx) as [|a rest]; simpl;
    [intros H; apply app_inv_head in H; congruence|].
  destruct (Py.truthy name) eqn:Etruthy; simpl;
    [|intros H; apply app_inv_head in H; congruence].
  apply truthy_nonempty in Etruthy.
  destruct (path_exists (voice_dir w) (name +:+ ".wav")) as [[|]|e]; simpl.
  - intros H; apply app_inv_head in H; congruence.
  - intros _. split; [assumption|reflexivity].
  - intros H. apply (f_equal (@length _)) in H.
    rewrite List.length_app in H. simpl in H. lia.
Qed.

(** C5, as amended: [register] creates the pending registration exactly
    when the sanitized name is non-empty and the test of line 111 answers
    that no entry named [<name>.wav], file or directory, exists in the
    storage location.  When the test answers that the entry exists, or the
    name is empty, the pending-registration dict is unchanged (a user in
    [Idle] remains in [Idle]) and the failure is reported: the
    already-exists text when the entry exists, the invalid-name text when
    the arguments sanitize to the empty name, the usage text when there is
    no argument; the texts differ from one another.  When the test itself
    raises (the directory cannot be searched), the handler raises in turn:
    nothing is registered and nothing is reported. *)
Theorem newvoice_command_registers_iff_valid
    (w : world) (msg : message) (ctx : context) :
  let user_id := from_user msg in
  let name := sanitize_voice_name (Py.join " " (args ctx)) in
  let taken := path_exists (voice_dir w) (name +:+ ".wav") in
  let w' := exec (newvoice_command msg ctx) w in
  (name ≠ "" ∧ taken = Ret false →
   awaiting_voice_upload w' = <[user_id := name]> (awaiting_voice_upload w)
   ∧ registration_of w' user_id = AwaitingUpload name
   ∧ sent w' = sent w ++ [ReplyText (msg_preparing name)])
  ∧ (name ≠ "" ∧ taken = Ret true →
     awaiting_voice_upload w' = awaiting_voice_upload w
     ∧ sent w' = sent w ++ [ReplyText (msg_already_exists name)])
  ∧ (name ≠ "" → ∀ e, taken = Raise e →
     result (newvoice_command msg ctx) w = Raise e ∧ w' = w)
  ∧ (name = "" →
     awaiting_voice_upload w' = awaiting_voice_upload w
     ∧ sent w' = sent w ++ [ReplyText (match args ctx with
                                       | [] => msg_usage
                                       | _ => msg_invalid_name
                                       end)])
  ∧ (registration_of w user_id = Idle →
     (registration_of w' user_id = AwaitingUpload name
      ↔ name ≠ "" ∧ taken = Ret false))
  ∧ (sent w' = sent w ++ [ReplyText (msg_preparing name)]
     ↔ name ≠ "" ∧ taken = Ret false)
  ∧ (taken = Ret true
     ↔ ∃ p entries, voice_dir w = Dir p entries ∧ searchable p = true
                    ∧ is_Some (lookup_entry (name +:+ ".wav") entries))
  ∧ ((∃ e, taken = Raise e)
     ↔ voice_dir w = Unreachable
       ∨ ∃ p entries, voice_dir w = Dir p entries ∧ searchable p = false)
  ∧ msg_invalid_name
    = "Invalid voice name. Please use alphanumeric characters."
  ∧ msg_already_exists name
    = "A voice named '" +:+ name
      +:+ "' already exists. Choose a different name."
  ∧ msg_invalid_name ≠ msg_already_exists name
  ∧ user_selected_voice w' = user_selected_voice w
  ∧ voice_dir w' = voice_dir w.
Proof.
  intros user_id name taken w'.
  pose proof (newvoice_command_run w msg ctx) as Hrun. cbv zeta in Hrun.
  fold name in Hrun. fold taken in Hrun.
  assert (taken = Ret true
          ↔ ∃ p entries, voice_dir w = Dir p entries ∧ searchable p = true
               ∧ is_Some (lookup_entry (name +:+ ".wav") entries)) as Htaken.
  { unfold taken, path_exists. destruct (voice_dir w) as [| | | |p entries].
    1-4: split; [discriminate|intros (? & ? & [=] & _)].
    destruct (searchable p) eqn:Hx.
    - split.
      + intros [= H]. apply bool_decide_eq_true in H. eauto.
      + intros (? & ? & [= <- <-] & _ & H). f_equal.
        now apply bool_decide_eq_true.
    - split; [discriminate|]. intros (? & ? & [= <- <-] & ? & _). congruence. }
  assert ((∃ e, taken = Raise e)
          ↔ voice_dir w = Unreachable
            ∨ ∃ p entries, voice_dir w = Dir p entries ∧ searchable p = false)
    as Hraises.
  { unfold taken, path_exists. destruct (voice_dir w) as [| | | |p entries].
    1-3: split; [intros [? [=]]|intros [[=]|(? & ? & [=] & _)]].
    - split; eauto.
    - destruct (searchable p) eqn:Hx.
      + split; [intros [? [=]]|].
        intros [[=]|(? & ? & [= <- <-] & ?)]. congruence.
      + split; eauto. }
  unfold w', exec, result. rewrite Hrun. clear Hrun w'.
  destruct (reply_texts_differ name name)
    as (Hpu & Hpi & Hpa & Hia & _).
  assert (args ctx = [] → name = "") as Hnoargs.
  { intros E. unfold name. now rewrite E. }
  clearbody taken.
  destruct (args ctx) as [|a rest] eqn:Eargs;
    [specialize (Hnoargs eq_refl)
    |clear Hnoargs; destruct (Py.truthy name) eqn:Etruthy;
     [apply truthy_nonempty in Etruthy; destruct taken as [[|]|e]
     |apply truthy_empty in Etruthy]];
    simpl; unfold registration_of; simpl; subst user_id;
    rewrite ?lookup_insert_eq;
    repeat match goal with
      | |- _ ∧ _ => split
      | |- _ ↔ _ => split
      | |- _ → _ => intro
      | |- ∀ _, _ => intro
      | H : _ ∧ _ |- _ => destruct H
      | H : _ ++ [_] = _ ++ [_] |- _ => apply app_inv_head in H
      | H : match ?x with _ => _ end = Idle |- _ => destruct x eqn:?
      end;
    try congruence; try tauto; try reflexivity;
    try (apply Htaken; assumption); try (apply Hraises; assumption);
    try (exfalso;
         match goal with
         | H : ?l = ?l ++ [_] |- _ =>
             apply (f_equal (@length _)) in H;
             rewrite List.length_app in H; simpl in H; lia
         end).
Qed.

(** ** Storage *)

Lemma lookup_entry_In (name : string) (entries : list (string * node))
    (x : node) :
  lookup_entry name entries = Some x → In (name, x) entries.
Proof.
  induction entries as [|[n y] rest IH]; simpl; [discriminate|].
  destruct (String.eqb_spec n name) as [->|Hne].
  - intros [= ->]. now left.
  - intros H. right. now apply IH.
Qed.

Lemma In_lookup_entry (name : string) (x : node)
    (entries : list (string * node)) :
  In (name, x) entries → is_Some (lookup_entry name entries).
Proof.
  induction entries as [|[n y] rest IH]; simpl; [contradiction|].
  intros [[= -> ->]|Hin].
  - rewrite String.eqb_refl. eauto.
  - destruct (String.eqb n name); [eauto|now apply IH].
Qed.

Lemma lookup_entry_app (name : string) (xs ys : list (string * node)) :
  lookup_entry name (xs ++ ys)
  = match lookup_entry name xs with
    | Some x => Some x
    | None => lookup_entry name ys
    end.
Proof.
  induction xs as [|[n x] xs IH]; simpl; [reflexivity|].
  destruct (String.eqb n name); [reflexivity|exact IH].
Qed.

Lemma lookup_entry_replace (name name' : string) (x : node)
    (entries : list (string * node)) :
  lookup_entry name' (replace_entry name x entries)
  = if String.eqb name name'
    then match lookup_entry name entries with
         | Some _ => Some x
         | None => None
         end
    else lookup_entry name' entries.
Proof.
  induction entries as [|[n y] rest IH]; simpl.
  - now destruct (String.eqb name name').
  - destruct (String.eqb n name) eqn:En; simpl.
    + apply String.eqb_eq in En. subst n.
      destruct (String.eqb name name'); reflexivity.
    + destruct (String.eqb n name') eqn:En'; [|exact IH].
      apply String.eqb_eq in En'. subst n.
      now rewrite String.eqb_sym, En.
Qed.

(** A new entry is found under its name wherever it is enumerated, and
    hides no other. *)
Lemma lookup_entry_insert_at (name name' : string) (x : node) (i : nat)
    (entries : list (string * node)) :
  lookup_entry name entries = None →
  lookup_entry name' (insert_at i (name, x) entries)
  = if String.eqb name name' then Some x else lookup_entry name' entries.
Proof.
  intros Hnew. unfold insert_at. rewrite lookup_entry_app. simpl.
  assert (lookup_entry name (firstn i entries) = None) as Hfirst.
  { rewrite <- (firstn_skipn i entries), lookup_entry_app in Hnew.
    now destruct (lookup_entry name (firstn i entries)). }
  assert (lookup_entry name' entries
          = match lookup_entry name' (firstn i entries) with
            | Some y => Some y
            | None => lookup_entry name' (skipn i entries)
            end) as ->.
  { rewrite <- (firstn_skipn i entries) at 1. apply lookup_entry_app. }
  destruct (String.eqb_spec name name') as [<-|Hne].
  - now rewrite Hfirst.
  - reflexivity.
Qed.

Lemma In_insert_at (i : nat) (e e' : string * node)
    (entries : list (string * node)) :
  In e' (insert_at i e entries) ↔ e' = e ∨ In e' entries.
Proof.
  unfold insert_at. rewrite in_app_iff. simpl.
  rewrite <- (firstn_skipn i entries) at 3. rewrite in_app_iff.
  intuition congruence.
Qed.

Lemma path_exists_false (p : permissions) (entries : list (string * node))
    (name : string) :
  path_exists (Dir p entries) name = Ret false →
  searchable p = true ∧ lookup_entry name entries = None.
Proof.
  unfold path_exists. destruct (searchable p); [|discriminate].
  intros [= H]. apply bool_decide_eq_false in H. split; [reflexivity|].
  destruct (lookup_entry name entries); [|reflexivity].
  exfalso. apply H. eauto.
Qed.

Lemma path_exists_true (d : storage) (name : string) :
  path_exists d name = Ret true
  ↔ ∃ p entries, d = Dir p entries ∧ searchable p = true
                 ∧ is_Some (lookup_entry name entries).
Proof.
  unfold path_exists. destruct d as [| | | |p entries].
  1-4: split; [discriminate|intros (? & ? & [=] & _)].
  destruct (searchable p) eqn:Hx.
  - split.
    + intros [= H]. apply bool_decide_eq_true in H. eauto.
    + intros (? & ? & [= <- <-] & _ & H). f_equal.
      now apply bool_decide_eq_true.
  - split; [discriminate|]. intros (? & ? & [= <- <-] & ? & _). congruence.
Qed.

(** Whatever the disk answers, a write leaves every other name as it
    was. *)
Lemma write_bytes_lookup (d : storage) (name name' : string)
    (content : list Byte.byte) (answer : disk_answer) (position : nat) :
  name' ≠ name →
  storage_lookup (fst (write_bytes d name content answer position)) name'
  = storage_lookup d name'.
Proof.
  intros Hne. destruct d as [| | | |p entries]; simpl; try reflexivity.
  destruct (searchable p); simpl; [|reflexivity].
  assert (String.eqb name name' = false) as Hneq
    by (apply String.eqb_neq; congruence).
  destruct (lookup_entry name entries) as [[old|]|] eqn:E.
  - destruct answer; simpl; try reflexivity;
      now rewrite lookup_entry_replace, Hneq.
  - reflexivity.
  - destruct (writable p); simpl; [|reflexivity].
    destruct answer; simpl; try reflexivity;
      now rewrite lookup_entry_insert_at, Hneq by assumption.
Qed.

(** A write that returns leaves the file, with all the bytes, in the
    directory, which it found searchable. *)
Lemma write_bytes_completes (d : storage) (name : string)
    (content : list Byte.byte) (answer : disk_answer) (position : nat) :
  snd (write_bytes d name content answer position) = Ret tt →
  ∃ p entries entries',
    d = Dir p entries
    ∧ fst (write_bytes d name content answer position) = Dir p entries'
    ∧ searchable p = true
    ∧ lookup_entry name entries' = Some (RegularFile content).
Proof.
  destruct d as [| | | |p entries]; simpl; try discriminate.
  destruct (searchable p) eqn:Hx; simpl; [|discriminate].
  destruct (lookup_entry name entries) as [[old|]|] eqn:E.
  - destruct answer; simpl; try discriminate. intros _.
    eexists p, entries, _.
    split; [reflexivity|]. split; [reflexivity|]. split; [assumption|].
    now rewrite lookup_entry_replace, String.eqb_refl, E.
  - discriminate.
  - destruct (writable p); simpl; [|discriminate].
    destruct answer; simpl; try discriminate. intros _.
    eexists p, entries, _.
    split; [reflexivity|]. split; [reflexivity|]. split; [assumption|].
    now rewrite lookup_entry_insert_at, String.eqb_refl by assumption.
Qed.

(** When the disk takes all the bytes, the write returns for a new name
    in a directory that accepts new files, and over a regular file in a
    directory that can be searched. *)
Lemma write_bytes_returns (p : permissions) (entries : list (string * node))
    (name : string) (content : list Byte.byte) (position : nat) :
  searchable p = true →
  (lookup_entry name entries = None ∧ writable p = true)
  ∨ (∃ old, lookup_entry name entries = Some (RegularFile old)) →
  snd (write_bytes (Dir p entries) name content WriteCompletes position)
  = Ret tt.
Proof.
  intros Hx [[Hnew Hw]|[old Hold]]; simpl; rewrite Hx; simpl.
  - now rewrite Hnew, Hw.
  - now rewrite Hold.
Qed.


(** Creating the directory changes nothing that is listed. *)
Lemma mkdir_listed (d d' : storage) :
  mkdir d = Ret d' → listed_voices d' = listed_voices d.
Proof. destruct d; simpl; intros [= <-]; reflexivity. Qed.

Lemma mkdir_bot_managed (d d' : storage) :
  mkdir d = Ret d' → bot_managed d → bot_managed d'.
Proof.
  destruct d; simpl; intros [= <-]; simpl; auto.
Qed.

(** Overwriting a regular file changes nothing that is listed. *)
Lemma replace_entry_listed (name : string) (old content : list Byte.byte)
    (entries : list (string * node)) :
  lookup_entry name entries = Some (RegularFile old) →
  wav_voices (replace_entry name (RegularFile content) entries)
  = wav_voices entries.
Proof.
  unfold wav_voices.
  induction entries as [|[n y] rest IH]; simpl; [discriminate|].
  destruct (String.eqb_spec n name) as [->|Hne].
  - intros [= ->]. simpl.
    destruct (is_wav_suffix (PurePath.suffix name)); reflexivity.
  - intros H. simpl.
    destruct (is_file y && is_wav_suffix (PurePath.suffix n)); simpl;
      now rewrite (IH H).
Qed.

Lemma insert_at_listed (i : nat) (e : string * node)
    (entries : list (string * node)) (v : string) :
  In v (wav_voices entries) → In v (wav_voices (insert_at i e entries)).
Proof.
  unfold wav_voices. rewrite !in_map_iff.
  intros (e' & Hstem & Hin). exists e'. split; [assumption|].
  apply filter_In in Hin as [Hin Hok]. apply filter_In. split; [|assumption].
  apply In_insert_at. now right.
Qed.

(** A write removes no voice from the listing, whatever the disk
    answers. *)
Lemma write_bytes_listed (d : storage) (name : string)
    (content : list Byte.byte) (answer : disk_answer) (position : nat)
    (v : string) :
  In v (listed_voices d) →
  In v (listed_voices (fst (write_bytes d name content answer position))).
Proof.
  destruct d as [| | | |p entries]; simpl; try contradiction.
  destruct (readable p) eqn:Hr; simpl; [|contradiction].
  destruct (searchable p) eqn:Hx; simpl; [|contradiction].
  destruct (lookup_entry name entries) as [[old|]|] eqn:E.
  - destruct answer; simpl; rewrite Hr, Hx; simpl;
      rewrite ?(replace_entry_listed _ _ _ _ E); auto.
  - simpl. now rewrite Hr, Hx.
  - destruct (writable p); simpl; [|now rewrite Hr, Hx].
    destruct answer; simpl; rewrite Hr, Hx; simpl; auto;
      apply insert_at_listed.
Qed.

Lemma replace_entry_Forall (P : string * node → Prop) (name : string)
    (x : node) (entries : list (string * node)) :
  Forall P entries → P (name, x) →
  Forall P (replace_entry name x entries).
Proof.
  intros Hall Hx. induction Hall as [|[n y] rest Hy Hrest IH]; simpl;
    [constructor|].
  destruct (String.eqb_spec n name) as [->|Hne]; constructor; assumption.
Qed.

Lemma insert_at_Forall (P : string * node → Prop) (i : nat)
    (e : string * node) (entries : list (string * node)) :
  Forall P entries → P e → Forall P (insert_at i e entries).
Proof.
  intros Hall He. apply List.Forall_forall. intros e' Hin.
  apply In_insert_at in Hin as [->|Hin]; [assumption|].
  now apply (proj1 (List.Forall_forall P entries) Hall).
Qed.

Lemma write_bytes_bot_managed (d : storage) (name : string)
    (content : list Byte.byte) (answer : disk_answer) (position : nat) :
  valid_voice_name name →
  bot_managed d →
  bot_managed
    (fst (write_bytes d (name +:+ ".wav") content answer position)).
Proof.
  intros Hvalid. destruct d as [| | | |p entries]; simpl; try tauto.
  intros [-> Hall]. simpl.
  destruct (lookup_entry (name +:+ ".wav") entries) as [[old|]|] eqn:E;
    destruct answer; simpl; (split; [reflexivity|]); try assumption;
    solve [apply replace_entry_Forall; [assumption|]; eauto
          |apply insert_at_Forall; [assumption|]; eauto].
Qed.

(** A file [<name>.wav] with a non-empty name is listed under [name] in a
    directory that can be read and searched. *)
Lemma wav_file_listed (p : permissions) (entries : list (string * node))
    (name : string) (content : list Byte.byte) :
  readable p = true → searchable p = true →
  name ≠ "" →
  In (name +:+ ".wav", RegularFile content) entries →
  In name (listed_voices (Dir p entries)).
Proof.
  intros Hr Hx Hne Hin. apply listed_voices_In.
  exists p, entries, ".wav", content. repeat split; try assumption.
  simpl. now left.
Qed.

(** ** handle_audio with a registration *)

Lemma download_to_drive_run (f : telegram_file) (file_name : string)
    (w : world) :
  download_to_drive f file_name w
  = match download f with
    | Raise e => (Raise e, w)
    | Ret content =>
        (snd (write_bytes (voice_dir w) file_name content (disk f) (place f)),
         set_voice_dir
           (fst (write_bytes (voice_dir w) file_name content (disk f)
                   (place f))) w)
    end.
Proof.
  unfold download_to_drive, bind, lift, get_world, modify.
  destruct (download f); reflexivity.
Qed.

(** The body of the [try], step by step. *)
Lemma save_voice_run (user_id : Z) (voice_name file_id : string)
    (ctx : context) (w : world) :
  save_voice user_id voice_name file_id ctx w
  = match get_file ctx file_id with
    | Raise e => (Raise e, w)
    | Ret f =>
        match mkdir (voice_dir w) with
        | Raise e => (Raise e, w)
        | Ret d =>
            match download f with
            | Raise e => (Raise e, set_voice_dir d w)
            | Ret content =>
                let written :=
                  write_bytes d (voice_name +:+ ".wav") content (disk f)
                    (place f) in
                match snd written with
                | Raise e => (Raise e, set_voice_dir (fst written) w)
                | Ret _ =>
                    (Ret tt,
                     push_sent (ReplyText (msg_added voice_name))
                       (push_logged INFO
                          (NewVoiceSaved voice_name user_id
                             (voice_name +:+ ".wav"))
                          (set_voice_dir (fst written) w)))
                end
            end
        end
    end.
Proof.
  unfold save_voice. unfold bind at 1. unfold lift at 1.
  destruct (get_file ctx file_id) as [f|e]; [|reflexivity].
  unfold bind at 1. unfold get_world at 1.
  unfold bind at 1. unfold lift at 1.
  destruct (mkdir (voice_dir w)) as [d|e]; [|reflexivity].
  unfold bind at 1. unfold modify at 1.
  unfold bind at 1. rewrite download_to_drive_run.
  destruct (download f) as [content|e]; [|reflexivity].
  cbv zeta. simpl voice_dir.
  destruct (snd (write_bytes d (voice_name +:+ ".wav") content (disk f)
                   (place f))) as [[]|e]; reflexivity.
Qed.

(** What the body of the [try] of [handle_audio] can do: nothing to the
    dicts, and to the storage nothing, or the creation of the directory,
    or that and a write of [<voice_name>.wav]. *)
Lemma save_voice_effects (user_id : Z) (voice_name file_id : string)
    (ctx : context) (w : world) :
  ∃ r w',
    save_voice user_id voice_name file_id ctx w = (r, w')
    ∧ user_selected_voice w' = user_selected_voice w
    ∧ awaiting_voice_upload w' = awaiting_voice_upload w
    ∧ (voice_dir w' = voice_dir w
       ∨ mkdir (voice_dir w) = Ret (voice_dir w')
       ∨ ∃ d content answer position,
           mkdir (voice_dir w) = Ret d
           ∧ voice_dir w'
             = fst (write_bytes d (voice_name +:+ ".wav") content answer
                      position)).
Proof.
  rewrite save_voice_run.
  destruct (get_file ctx file_id) as [f|e]; simpl;
    [|eexists _, _; split; [reflexivity|]; repeat split; now left].
  destruct (mkdir (voice_dir w)) as [d|e] eqn:Hmkdir; simpl;
    [|eexists _, _; split; [reflexivity|]; repeat split; now left].
  destruct (download f) as [content|e]; simpl;
    [|eexists _, _; split; [reflexivity|]; simpl; repeat split;
      right; now left].
  destruct (snd (write_bytes d (voice_name +:+ ".wav") content (disk f)
                   (place f))) as [[]|e];
    eexists _, _; (split; [reflexivity|]); simpl; repeat split;
    right; right; now exists d, content, (disk f), (place f).
Qed.


Lemma check_mime_type_run (user_id : Z) (voice_name : string)
    (msg : message) (w : world) :
  ∃ w', check_mime_type user_id voice_name msg w = (Ret tt, w')
        ∧ user_selected_voice w' = user_selected_voice w
        ∧ awaiting_voice_upload w' = awaiting_voice_upload w
        ∧ voice_dir w' = voice_dir w
        ∧ sent w' = sent w.
Proof.
  unfold check_mime_type.
  destruct (document msg) as [mime|]; [destruct (negb (is_wav_mime mime))|];
    eexists; (split; [reflexivity|]); repeat split.
Qed.


Lemma handle_audio_effects (w : world) (msg : message) (ctx : context) :
  ∃ w',
    handle_audio msg ctx w = (Ret tt, w')
    ∧ user_selected_voice w' = user_selected_voice w
    ∧ awaiting_voice_upload w'
      = delete (from_user msg) (awaiting_voice_upload w)
    ∧ (voice_dir w' = voice_dir w
       ∨ mkdir (voice_dir w) = Ret (voice_dir w')
       ∨ ∃ name d content answer position,
           awaiting_voice_upload w !! from_user msg = Some name
           ∧ mkdir (voice_dir w) = Ret d
           ∧ voice_dir w'
             = fst (write_bytes d (name +:+ ".wav") content answer
                      position)).
Proof.
  unfold handle_audio. unfold bind at 1. unfold get_world at 1.
  destruct (awaiting_voice_upload w !! from_user msg) as [name|] eqn:Hp.
  - unfold bind at 1. unfold modify at 1.
    destruct (audio_message_part msg) as [file_id|].
    + destruct (check_mime_type_run (from_user msg) name msg
                  (set_awaiting (λ m, delete (from_user msg) m) w))
        as (w1 & Hmime & Hsel1 & Haw1 & Hdir1 & Hsent1).
      unfold bind at 1. rewrite Hmime. unfold try_except.
      simpl in Hsel1, Haw1, Hdir1.
      destruct (save_voice_effects (from_user msg) name file_id ctx w1)
        as (r & w2 & Hrun & Hsel2 & Haw2 & Hdir2).
      rewrite Hrun. rewrite Hdir1 in Hdir2.
      assert (voice_dir w2 = voice_dir w
              ∨ mkdir (voice_dir w) = Ret (voice_dir w2)
              ∨ ∃ name0 d content answer position,
                  Some name = Some name0
                  ∧ mkdir (voice_dir w) = Ret d
                  ∧ voice_dir w2
                    = fst (write_bytes d (name0 +:+ ".wav") content answer
                             position)) as Hdir.
      { destruct Hdir2 as [H|[H|(d & content & answer & position & H1 & H2)]];
          [now left|right; now left|].
        right; right. now exists name, d, content, answer, position. }
      destruct r as [[]|e]; simpl;
        (eexists; split; [reflexivity|]); simpl;
        rewrite Hsel2, Haw2, Hsel1, Haw1; repeat split; exact Hdir.
    + eexists; split; [reflexivity|]. simpl. auto.
  - eexists; split; [reflexivity|]. simpl. rewrite (delete_id _ _ Hp). auto.
Qed.




(** ** Voice resolution in handle_text *)

Lemma first_available_or_default_run (user_id : Z) (w : world) :
  ∃ w',
    first_available_or_default user_id w
    = (resolve_outcome None (voice_dir w), w')
    ∧ user_selected_voice w' = user_selected_voice w
    ∧ awaiting_voice_upload w' = awaiting_voice_upload w
    ∧ voice_dir w' = voice_dir w
    ∧ sent w' = sent w.
Proof.
  unfold first_available_or_default, resolve_outcome, bind. simpl.
  destruct (get_available_voices_frame w)
    as (w1 & Hrun & Hsel & Haw & Hdir & Hsent).
  rewrite Hrun.
  destruct (listing_outcome (voice_dir w)) as [[|first rest]|e];
    (eexists; split; [reflexivity|]); simpl; repeat split; assumption.
Qed.

Lemma determine_voice_run (user_id : Z) (w : world) :
  ∃ w',
    determine_voice user_id w
    = (resolve_outcome (user_selected_voice w !! user_id) (voice_dir w), w')
    ∧ user_selected_voice w' = user_selected_voice w
    ∧ awaiting_voice_upload w' = awaiting_voice_upload w
    ∧ voice_dir w' = voice_dir w
    ∧ sent w' = sent w.
Proof.
  unfold determine_voice, bind at 1, get_world.
  destruct (user_selected_voice w !! user_id) as [v|]; simpl.
  - unfold resolve_outcome. simpl. destruct (Py.truthy v); simpl.
    + exists w. repeat split.
    + apply first_available_or_default_run.
  - apply first_available_or_default_run.
Qed.

(** What [handle_text] does for a user in [Idle], by the outcome of the
    resolution: its exception is raised again with nothing sent; with the
    voice it returns, the chat action and the voice note are sent. *)
Lemma handle_text_idle (w : world) (msg : message) (ctx : context) :
  awaiting_voice_upload w !! from_user msg = None →
  ∃ w1,
    determine_voice (from_user msg) w
    = (resolve_outcome (user_selected_voice w !! from_user msg)
         (voice_dir w), w1)
    ∧ sent w1 = sent w
    ∧ handle_text msg ctx w
      = match resolve_outcome (user_selected_voice w !! from_user msg)
                (voice_dir w) with
        | Raise e => (Raise e, w1)
        | Ret v =>
            (Ret tt,
             push_sent (ReplyVoice (fake_audio v) (msg_caption v))
               (push_logged INFO (TtsCalled v (Py.slice_to 30 (text msg)))
                  (push_sent SendChatActionRecordVoice w1)))
        end.
Proof.
  intros Hidle.
  destruct (determine_voice_run (from_user msg) w)
    as (w1 & Hrun & _ & _ & _ & Hsent).
  exists w1. split; [assumption|]. split; [assumption|].
  unfold handle_text. unfold bind at 1. unfold get_world at 1.
  rewrite Hidle. unfold bind at 1. rewrite Hrun.
  now destruct (resolve_outcome _ _).
Qed.

(** C4, as amended: the voice of a synthesis request is resolved in this
    order, first match wins: (1) the user's selection when it is present
    and not the empty string, whatever the catalog holds, and without
    asking for the listing; (2) otherwise the first entry of the catalog
    listing, when the listing is non-empty; (3) otherwise the conceptual
    default name.  In cases (2) and (3) the listing is asked for: when the
    storage location cannot be reached, its exception ends the
    resolution, and [handle_text] with it, before anything is sent.  A
    voice note that [handle_text] sends for a user in [Idle] is
    synthesized with the resolved voice and names it in the caption. *)
Theorem handle_text_resolution_order
    (w : world) (msg : message) (ctx : context) :
  let user_id := from_user msg in
  let selection := user_selected_voice w !! user_id in
  let catalog := listed_voices (voice_dir w) in
  let resolved := spec_resolve_voice (effective_selection selection) catalog in
  (∀ v, selection = Some v → v ≠ "" →
        result (determine_voice user_id) w = Ret v ∧ resolved = v)
  ∧ (selection = None ∨ selection = Some "" →
     (voice_dir w ≠ Unreachable →
      result (determine_voice user_id) w = Ret resolved
      ∧ (∀ first rest, catalog = first :: rest → resolved = first)
      ∧ (catalog = [] → resolved = DEFAULT_VOICE_NAME))
     ∧ (voice_dir w = Unreachable →
        result (determine_voice user_id) w = Raise OSError))
  ∧ (registration_of w user_id = Idle →
     ∀ e, result (determine_voice user_id) w = Raise e →
          result (handle_text msg ctx) w = Raise e
          ∧ sent (exec (handle_text msg ctx) w) = sent w)
  ∧ (registration_of w user_id = Idle →
     ∀ v, result (determine_voice user_id) w = Ret v →
          ∃ new,
            sent (exec (handle_text msg ctx) w) = sent w ++ new
            ∧ ∀ audio caption,
                In (ReplyVoice audio caption) new →
                audio = fake_audio v ∧ caption = msg_caption v).
Proof.
  intros user_id selection catalog resolved.
  destruct (determine_voice_run user_id w) as (w1 & Hrun & _).
  fold selection in Hrun.
  assert (result (determine_voice user_id) w
          = resolve_outcome selection (voice_dir w)) as Hres
    by (unfold result; now rewrite Hrun).
  rewrite Hres. clear Hrun w1.
  split; [|split; [|split]].
  - intros v Hv Hne. apply truthy_nonempty in Hne.
    unfold resolved, resolve_outcome. rewrite Hv. simpl. now rewrite Hne.
  - intros Hs.
    assert (effective_selection selection = None) as Hnone
      by (destruct Hs as [-> | ->]; reflexivity).
    unfold resolved, resolve_outcome. rewrite Hnone. split.
    + intros Hreach. rewrite (listing_outcome_reachable _ Hreach).
      fold catalog. split; [reflexivity|].
      split; [intros first rest ->; reflexivity|intros ->; reflexivity].
    + intros ->. reflexivity.
  - intros Hidle e He. apply registration_of_Idle in Hidle.
    destruct (handle_text_idle w msg ctx Hidle) as (w1 & _ & Hsent & Hrun).
    fold user_id selection in Hrun.
    unfold result, exec. rewrite Hrun, He. simpl. now split.
  - intros Hidle v Hv. apply registration_of_Idle in Hidle.
    destruct (handle_text_idle w msg ctx Hidle) as (w1 & _ & Hsent & Hrun).
    fold user_id selection in Hrun.
    exists [SendChatActionRecordVoice;
            ReplyVoice (fake_audio v) (msg_caption v)].
    unfold exec. rewrite Hrun, Hv. simpl. rewrite Hsent, <- app_assoc.
    split; [reflexivity|].
    intros audio caption [[=]|[[= <- <-]|[]]]. now split.
Qed.

(* ===================================================================== *)
(** * Concrete runs *)
(* ===================================================================== *)



(** What a failed attempt leaves of the catalog is not fixed: when the
    disk fills up after three bytes of the upload of [bob], the error text
    is sent, and the file that the write had opened is listed as the voice
    [bob]. *)
Example handle_audio_broken_write_lists_voice :
  listed_voices (voice_dir world_awaiting_bob) = []
  ∧ sent (exec (handle_audio (voice_message 7 "file-1")
                             (bot_disk_full ten_bytes))
               world_awaiting_bob)
    = sent world_awaiting_bob ++ [ReplyText (msg_error_saving "bob")]
  ∧ storage_lookup
      (voice_dir (exec (handle_audio (voice_message 7 "file-1")
                                     (bot_disk_full ten_bytes))
                       world_awaiting_bob)) "bob.wav"
    = Some (RegularFile (firstn 3 ten_bytes))
  ∧ result get_available_voices
      (exec (handle_audio (voice_message 7 "file-1")
                          (bot_disk_full ten_bytes))
            world_awaiting_bob)
    = Ret ["bob"].
Proof. repeat split. Qed.



(** C7 at a fresh bot: user 7 sends a voice note without registering. *)
Lemma handle_audio_without_registration_witness :
  registration_of (initial_world Missing) 7 = Idle
  ∧ sent (exec (handle_audio (voice_message 7 "file-1") bot_offline)
               (initial_world Missing))
    = [ReplyText msg_use_newvoice_first]
  ∧ awaiting_voice_upload
      (exec (handle_audio (voice_message 7 "file-1") bot_offline)
            (initial_world Missing))
    = ∅.
Proof.
  split; [reflexivity|].
  pose proof (handle_audio_without_registration (initial_world Missing)
                (voice_message 7 "file-1") bot_offline eq_refl)
    as (_ & Hsent & Hpending & _).
  split; assumption.
Defined.

(** C8 at the run where user 7 awaits the upload of [bob] and sends
    [hello]. *)
Lemma handle_text_while_awaiting_upload_witness :
  registration_of world_awaiting_bob 7 = AwaitingUpload "bob"
  ∧ registration_of
      (exec (handle_text (text_message 7 "hello") bot_offline)
            world_awaiting_bob) 7
    = AwaitingUpload "bob"
  ∧ sent (exec (handle_text (text_message 7 "hello") bot_offline)
               world_awaiting_bob)
    = sent world_awaiting_bob ++ [ReplyText (msg_waiting_for_audio "bob")].
Proof.
  split; [reflexivity|].
  pose proof (handle_text_while_awaiting_upload world_awaiting_bob
                (text_message 7 "hello") bot_offline "bob" eq_refl)
    as (_ & Hreg & Hsent & _).
  split; assumption.
Defined.

(** C4, as stated, fails: user 7 has an explicit selection, the empty
    string, and the first voice of the catalog is used instead. *)
Lemma determine_voice_skips_empty_selection :
  user_selected_voice world_empty_selection !! 7 = Some ""
  ∧ result (determine_voice 7) world_empty_selection = Ret "alice"
  ∧ spec_resolve_voice (Some "") ["alice"; "bob"] = "".
Proof. repeat split. Qed.

(** C5, as stated, fails: the catalog lists no voice, so the non-empty
    name [bob] collides with no catalog entry, and yet the registration is
    rejected as taken, because a subdirectory [bob.wav] exists. *)
Lemma newvoice_command_rejects_unlisted_name :
  sanitize_voice_name (Py.join " " ["bob"]) = "bob"
  ∧ result get_available_voices world_directory_bob = Ret []
  ∧ registration_of world_directory_bob 7 = Idle
  ∧ registration_of
      (exec (newvoice_command (text_message 7 "/newvoice bob")
                              (with_args ["bob"]))
            world_directory_bob) 7
    = Idle
  ∧ sent (exec (newvoice_command (text_message 7 "/newvoice bob")
                                 (with_args ["bob"]))
               world_directory_bob)
    = [ReplyText (msg_already_exists "bob")].
Proof. repeat split. Qed.

(** The other way round, on a file system that tells [bob.WAV] from
    [bob.wav]: the catalog lists [bob], and [bob] is registered anew. *)
Example newvoice_command_accepts_listed_name :
  result get_available_voices world_uppercase_bob = Ret ["bob"]
  ∧ registration_of
      (exec (newvoice_command (text_message 7 "/newvoice bob")
                              (with_args ["bob"]))
            world_uppercase_bob) 7
    = AwaitingUpload "bob".
Proof. repeat split. Qed.

(* ===================================================================== *)
(** * Further properties of the code *)
(* ===================================================================== *)

(** ** More on sanitize_voice_name *)

Lemma append_empty_r (s : string) : s +:+ "" = s.
Proof.
  induction s as [|c s IH]; [reflexivity|].
  rewrite append_cons. now rewrite IH.
Qed.

Lemma re_sub_id (cls : ascii → bool) (s : string) :
  Forall (λ c, cls c = true) (list_ascii_of_string s) →
  Py.re_sub_delete_outside cls s = s.
Proof.
  induction s as [|c s IH]; simpl; [reflexivity|].
  intros H; inversion H as [|? ? Hc Hs]; subst.
  rewrite Hc. now rewrite (IH Hs).
Qed.

Lemma take_take (n : nat) (s : string) : Py.take n (Py.take n s) = Py.take n s.
Proof.
  revert s; induction n as [|n IH]; intros [|c s]; simpl; try reflexivity.
  now rewrite IH.
Qed.

Lemma take_short (n : nat) (s : string) :
  (String.length s ≤ n)%nat → Py.take n s = s.
Proof.
  revert s; induction n as [|n IH]; intros [|c s]; simpl; intros H;
    try reflexivity; try lia.
  rewrite IH; [reflexivity|lia].
Qed.

Lemma re_sub_app (cls : ascii → bool) (s t : string) :
  Py.re_sub_delete_outside cls (s +:+ t)
  = Py.re_sub_delete_outside cls s +:+ Py.re_sub_delete_outside cls t.
Proof.
  induction s as [|c s IH]; [reflexivity|].
  rewrite append_cons. simpl. destruct (cls c); [|exact IH].
  rewrite append_cons. now rewrite IH.
Qed.

(** A valid name is what [sanitize_voice_name] returns unchanged. *)
Lemma sanitize_voice_name_valid (raw : string) :
  sanitize_voice_name raw ≠ "" → valid_voice_name (sanitize_voice_name raw).
Proof.
  intros Hne. split; [assumption|]. split.
  - apply length_take.
  - apply sanitize_voice_name_all_kept.
Qed.

Lemma sanitize_voice_name_fixes_valid (name : string) :
  valid_voice_name name → sanitize_voice_name name = name.
Proof.
  intros (_ & Hlen & Hall). unfold sanitize_voice_name, Py.slice_to.
  rewrite (re_sub_id _ _ Hall). apply take_short.
  now change (Z.to_nat 50) with 50%nat.
Qed.

(** X1: sanitizing is idempotent: a sanitized name sanitizes to itself. *)
Theorem sanitize_voice_name_idempotent (raw : string) :
  sanitize_voice_name (sanitize_voice_name raw) = sanitize_voice_name raw.
Proof.
  unfold sanitize_voice_name at 1. unfold Py.slice_to.
  rewrite (re_sub_id keeps (sanitize_voice_name raw))
    by apply sanitize_voice_name_all_kept.
  unfold sanitize_voice_name, Py.slice_to. apply take_take.
Qed.


(** [" ".join] followed by the deletion of what is not kept is the
    concatenation of the parts with that deleted. *)
Lemma re_sub_join (sep : string) (parts : list string) :
  Py.re_sub_delete_outside keeps sep = "" →
  Py.re_sub_delete_outside keeps (Py.join sep parts)
  = fold_right (λ p acc, Py.re_sub_delete_outside keeps p +:+ acc) ""
      parts.
Proof.
  intros Hsep. induction parts as [|p [|q rest] IH].
  - reflexivity.
  - simpl. now rewrite append_empty_r.
  - change (Py.join sep (p :: q :: rest))
      with (p +:+ sep +:+ Py.join sep (q :: rest)).
    rewrite !re_sub_app, Hsep, append_empty_l, IH. reflexivity.
Qed.

(** X3: the spaces between the arguments of [/newvoice] do not count: the
    arguments joined by spaces sanitize to the same name as the arguments
    written together. *)
Theorem sanitize_voice_name_ignores_argument_spaces (parts : list string) :
  sanitize_voice_name (Py.join " " parts)
  = sanitize_voice_name (Py.join "" parts).
Proof.
  unfold sanitize_voice_name. f_equal.
  now rewrite !re_sub_join by reflexivity.
Qed.

(** ** What each handler changes *)

Lemma voice_command_run (w : world) (msg : message) (ctx : context) :
  ∃ w1,
    voice_command msg ctx w
    = match listing_outcome (voice_dir w) with
      | Raise e => (Raise e, w1)
      | Ret [] => (Ret None, push_sent (ReplyText msg_no_voices) w1)
      | Ret voices =>
          (Ret (Some (voice_keyboard voices)),
           push_sent (ReplyText msg_select_a_voice) w1)
      end
    ∧ user_selected_voice w1 = user_selected_voice w
    ∧ awaiting_voice_upload w1 = awaiting_voice_upload w
    ∧ voice_dir w1 = voice_dir w
    ∧ sent w1 = sent w.
Proof.
  destruct (get_available_voices_frame w)
    as (w1 & Hrun & Hsel & Haw & Hdir & Hsent).
  exists w1. split; [|auto]. unfold voice_command, bind at 1. rewrite Hrun.
  destruct (listing_outcome (voice_dir w)) as [[|]|]; reflexivity.
Qed.

Lemma button_handler_run (w : world) (query : callback_query) :
  button_handler query w
  = (Ret tt,
     if Py.startswith CALLBACK_PREFIX_VOICE (data query)
     then push_sent
            (EditMessageText
               (msg_voice_set
                  (Py.slice_from (Py.len CALLBACK_PREFIX_VOICE) (data query))))
            (set_selected
               (λ m, <[query_from_user query :=
                         Py.slice_from (Py.len CALLBACK_PREFIX_VOICE)
                           (data query)]> m)
               (push_sent AnswerCallbackQuery w))
     else push_sent (EditMessageText msg_unknown_action)
            (push_logged WARNING (UnknownCallbackData (data query))
               (push_sent AnswerCallbackQuery w))).
Proof.
  unfold button_handler.
  destruct (Py.startswith CALLBACK_PREFIX_VOICE (data query)); reflexivity.
Qed.

Lemma handle_text_frame (w : world) (msg : message) (ctx : context) :
  ∃ r w',
    handle_text msg ctx w = (r, w')
    ∧ user_selected_voice w' = user_selected_voice w
    ∧ awaiting_voice_upload w' = awaiting_voice_upload w
    ∧ voice_dir w' = voice_dir w.
Proof.
  unfold handle_text. unfold bind at 1. unfold get_world at 1.
  destruct (awaiting_voice_upload w !! from_user msg) as [pending|].
  - eexists _, _; split; [reflexivity|]. repeat split.
  - destruct (determine_voice_run (from_user msg) w)
      as (w1 & Hrun & Hsel & Haw & Hdir & Hsent).
    unfold bind at 1. rewrite Hrun.
    destruct (resolve_outcome _ _);
      (eexists _, _; split; [reflexivity|]); simpl; auto.
Qed.

(** Splits a statement about the effects of a handler into its parts and
    closes those that hold by the lookup laws of the dicts. *)
Ltac effects :=
  simpl;
  repeat match goal with
    | |- _ ∧ _ => split
    | |- True => exact I
    | |- ∀ _, _ => intro
    | |- _ → _ => intro
    end;
  rewrite ?lookup_insert_ne, ?lookup_delete_ne by congruence;
  try reflexivity; try assumption;
  try (left; reflexivity); try (left; assumption).

(** Every handler at once: it leaves the entries of the other users
    alone; a name it newly awaits is valid; and it does to the storage
    nothing, or the creation of the directory, or that and a write of the
    sender's pending [<name>.wav]. *)
Lemma dispatch_effects (upd : update) (w : world) :
  ∃ r w',
    dispatch upd w = (r, w')
    ∧ (∀ u, u ≠ sender upd →
            awaiting_voice_upload w' !! u = awaiting_voice_upload w !! u
            ∧ user_selected_voice w' !! u = user_selected_voice w !! u)
    ∧ (∀ n, awaiting_voice_upload w' !! sender upd = Some n →
            awaiting_voice_upload w !! sender upd = Some n
            ∨ valid_voice_name n)
    ∧ (voice_dir w' = voice_dir w
       ∨ mkdir (voice_dir w) = Ret (voice_dir w')
       ∨ ∃ name d content answer position,
           awaiting_voice_upload w !! sender upd = Some name
           ∧ mkdir (voice_dir w) = Ret d
           ∧ voice_dir w'
             = fst (write_bytes d (name +:+ ".wav") content answer
                      position))
    ∧ match upd with
      | CallbackQuery _ => True
      | _ => user_selected_voice w' = user_selected_voice w
      end
    ∧ match upd with
      | NewvoiceCommand _ _ | AudioMessage _ _ => True
      | _ => awaiting_voice_upload w' = awaiting_voice_upload w
      end
    ∧ match upd with
      | AudioMessage _ _ => True
      | _ => voice_dir w' = voice_dir w
      end.
Proof.
  destruct upd as [msg ctx|msg ctx|msg ctx|query|msg ctx|msg ctx];
    unfold dispatch, sender.
  - eexists _, _; split; [reflexivity|]. effects.
  - destruct (voice_command_run w msg ctx)
      as (w1 & Hrun & Hsel & Haw & Hdir & _).
    unfold bind. rewrite Hrun.
    destruct (listing_outcome (voice_dir w)) as [[|]|];
      (eexists _, _; split; [reflexivity|]); simpl;
      rewrite Hsel, Haw, Hdir; effects.
  - pose proof (newvoice_command_run w msg ctx) as Hrun. cbv zeta in Hrun.
    rewrite Hrun. clear Hrun.
    remember (sanitize_voice_name (Py.join " " (args ctx))) as name
      eqn:Hname.
    destruct (args ctx) as [|a rest];
      [eexists _, _; split; [reflexivity|]; effects|].
    destruct (Py.truthy name) eqn:Etruthy; cbv [negb];
      [|eexists _, _; split; [reflexivity|]; effects].
    destruct (path_exists (voice_dir w) (name +:+ ".wav")) as [[|]|e];
      (eexists _, _; split; [reflexivity|]); [effects| |effects].
    apply truthy_nonempty in Etruthy. effects.
    match goal with H : <[_:=_]> _ !! _ = Some _ |- _ =>
      rewrite lookup_insert_eq in H; injection H as <- end.
    right. subst name. now apply sanitize_voice_name_valid.
  - rewrite button_handler_run. eexists _, _; split; [reflexivity|].
    destruct (Py.startswith CALLBACK_PREFIX_VOICE (data query)); effects.
  - destruct (handle_text_frame w msg ctx)
      as (r & w' & Hrun & Hsel & Haw & Hdir).
    rewrite Hrun. eexists _, _; split; [reflexivity|].
    rewrite Hsel, Haw, Hdir. effects.
  - destruct (handle_audio_effects w msg ctx)
      as (w' & Hrun & Hsel & Haw & Hdir).
    rewrite Hrun. eexists _, _; split; [reflexivity|].
    rewrite Hsel, Haw. effects.
    match goal with H : delete _ _ !! _ = Some _ |- _ =>
      rewrite lookup_delete_eq in H; discriminate H end.
Qed.

(** X5: an update of one user changes neither the registration state nor
    the selection of any other user. *)
Theorem dispatch_leaves_other_users_alone
    (upd : update) (w : world) (u : Z) :
  u ≠ sender upd →
  registration_of (exec (dispatch upd) w) u = registration_of w u
  ∧ user_selected_voice (exec (dispatch upd) w) !! u
    = user_selected_voice w !! u.
Proof.
  intros Hu. destruct (dispatch_effects upd w) as (r & w' & Hrun & Hother & _).
  unfold exec. rewrite Hrun. simpl.
  destruct (Hother u Hu) as [Haw Hsel]. split; [|assumption].
  unfold registration_of. now rewrite Haw.
Qed.

(** X6: the selection dict is written by button presses only, the
    pending-registration dict by [/newvoice] and audio messages only, the
    storage by audio messages only. *)
Theorem dispatch_writes_only_its_own_state (upd : update) (w : world) :
  match upd with
  | CallbackQuery _ => True
  | _ => user_selected_voice (exec (dispatch upd) w) = user_selected_voice w
  end
  ∧ match upd with
    | NewvoiceCommand _ _ | AudioMessage _ _ => True
    | _ =>
        awaiting_voice_upload (exec (dispatch upd) w)
        = awaiting_voice_upload w
    end
  ∧ match upd with
    | AudioMessage _ _ => True
    | _ => voice_dir (exec (dispatch upd) w) = voice_dir w
    end.
Proof.
  destruct (dispatch_effects upd w)
    as (r & w' & Hrun & _ & _ & _ & Hsel & Haw & Hdir).
  unfold exec. rewrite Hrun. simpl. auto.
Qed.

(** ** Invariants of the run *)

Lemma process_app (updates : list update) (upd : update) (w : world) :
  process (updates ++ [upd]) w = exec (dispatch upd) (process updates w).
Proof. unfold process. now rewrite fold_left_app. Qed.

Lemma process_cons (upd : update) (updates : list update) (w : world) :
  process (upd :: updates) w = process updates (exec (dispatch upd) w).
Proof. reflexivity. Qed.

Lemma dispatch_pending_valid (upd : update) (w : world) :
  pending_valid w → pending_valid (exec (dispatch upd) w).
Proof.
  intros Hvalid u n. destruct (dispatch_effects upd w)
    as (r & w' & Hrun & Hother & Hnew & _).
  unfold exec. rewrite Hrun. simpl.
  destruct (decide (u = sender upd)) as [->|Hne].
  - intros H. destruct (Hnew n H) as [Hold|Hv]; [|assumption].
    now apply (Hvalid (sender upd)).
  - destruct (Hother u Hne) as [-> _]. apply Hvalid.
Qed.

Lemma process_pending_valid (updates : list update) (w : world) :
  pending_valid w → pending_valid (process updates w).
Proof.
  revert w. induction updates as [|upd updates IH]; intros w Hvalid;
    [assumption|].
  rewrite process_cons. apply IH. now apply dispatch_pending_valid.
Qed.

Lemma initial_world_pending_valid (d : storage) :
  pending_valid (initial_world d).
Proof. intros u n. simpl. now rewrite lookup_empty. Qed.

(** X7: at every moment of a run, the name a user's upload is awaited for
    is non-empty, at most 50 characters long, and made of word characters
    and hyphens. *)
Theorem pending_names_are_valid
    (d : storage) (updates : list update) (u : Z) (name : string) :
  awaiting_voice_upload (process updates (initial_world d)) !! u = Some name →
  name ≠ ""
  ∧ (String.length name ≤ 50)%nat
  ∧ Forall (λ c, keeps c = true) (list_ascii_of_string name)
  ∧ sanitize_voice_name name = name.
Proof.
  intros H.
  pose proof (process_pending_valid updates _
                (initial_world_pending_valid d) u name H) as Hvalid.
  pose proof (sanitize_voice_name_fixes_valid name Hvalid).
  destruct Hvalid as (? & ? & ?). auto.
Qed.

Lemma dispatch_listed (upd : update) (w : world) (v : string) :
  In v (listed_voices (voice_dir w)) →
  In v (listed_voices (voice_dir (exec (dispatch upd) w))).
Proof.
  intros Hin. destruct (dispatch_effects upd w)
    as (r & w' & Hrun & _ & _ & Hdir & _).
  unfold exec. rewrite Hrun. simpl.
  destruct Hdir
    as [->|[Hmk|(name & d & content & answer & position & _ & Hmk & ->)]].
  - assumption.
  - now rewrite (mkdir_listed _ _ Hmk).
  - apply write_bytes_listed. now rewrite (mkdir_listed _ _ Hmk).
Qed.

(** X8: the catalog never shrinks: a voice that is listed stays listed,
    whatever updates follow. *)
Theorem process_keeps_listed_voices
    (updates : list update) (w : world) (v : string) :
  In v (listed_voices (voice_dir w)) →
  In v (listed_voices (voice_dir (process updates w))).
Proof.
  revert w. induction updates as [|upd updates IH]; intros w Hin;
    [assumption|].
  rewrite process_cons. apply IH. now apply dispatch_listed.
Qed.


(** ** A storage location that only the bot writes to *)

Lemma append_inj_suffix (s s' t t' : string) :
  String.length t = String.length t' →
  s +:+ t = s' +:+ t' → s = s' ∧ t = t'.
Proof.
  intros Hlen. revert s'. induction s as [|c s IH]; intros [|c' s'] H.
  - now split.
  - exfalso. apply (f_equal String.length) in H.
    rewrite append_empty_l, append_cons in H. simpl in H.
    rewrite length_app in H. lia.
  - exfalso. apply (f_equal String.length) in H.
    rewrite append_empty_l, append_cons in H. simpl in H.
    rewrite length_app in H. lia.
  - rewrite !append_cons in H. injection H as -> H.
    destruct (IH s' H) as [-> ->]. now split.
Qed.

Lemma dispatch_bot_managed (upd : update) (w : world) :
  pending_valid w → bot_managed (voice_dir w) →
  bot_managed (voice_dir (exec (dispatch upd) w)).
Proof.
  intros Hvalid Hmanaged. destruct (dispatch_effects upd w)
    as (r & w' & Hrun & _ & _ & Hdir & _).
  unfold exec. rewrite Hrun. simpl.
  destruct Hdir
    as [->|[Hmk|(name & d & content & answer & position & Hp & Hmk & ->)]].
  - assumption.
  - now apply (mkdir_bot_managed _ _ Hmk).
  - apply write_bytes_bot_managed; [exact (Hvalid _ _ Hp)|].
    now apply (mkdir_bot_managed _ _ Hmk).
Qed.

Lemma process_bot_managed (updates : list update) (w : world) :
  pending_valid w → bot_managed (voice_dir w) →
  bot_managed (voice_dir (process updates w)).
Proof.
  revert w. induction updates as [|upd updates IH]; intros w Hvalid Hmanaged;
    [assumption|].
  rewrite process_cons. apply IH.
  - now apply dispatch_pending_valid.
  - now apply dispatch_bot_managed.
Qed.

(** In such a location the existence test returns. *)
Lemma bot_managed_path_exists (d : storage) (file_name : string) :
  bot_managed d →
  path_exists d file_name
  = Ret (bool_decide (is_Some (storage_lookup d file_name))).
Proof.
  destruct d as [| | | |p entries]; simpl; try contradiction;
    try reflexivity.
  now intros [-> _].
Qed.

(** In such a location, the listing and the existence test agree. *)
Lemma bot_managed_listed_iff_exists (d : storage) (name : string) :
  bot_managed d →
  (In name (listed_voices d) ↔ path_exists d (name +:+ ".wav") = Ret true).
Proof.
  intros Hmanaged. split.
  - intros Hin. apply listed_voices_In in Hin
      as (p & entries & ext & content & -> & Hr & Hx & Hin & Hne & Hext).
    destruct Hmanaged as [-> Hmanaged].
    rewrite List.Forall_forall in Hmanaged.
    destruct (Hmanaged _ Hin) as (n' & c' & [= E _] & _).
    destruct (wav_suffix_shape ext Hext) as [Hlen _].
    destruct (append_inj_suffix name n' ext ".wav" Hlen E) as [-> ->].
    apply path_exists_true. eexists _, _. split; [reflexivity|].
    split; [reflexivity|]. eapply In_lookup_entry, Hin.
  - intros H. apply path_exists_true in H
      as (p & entries & -> & Hx & [x Hfile]).
    apply lookup_entry_In in Hfile.
    destruct Hmanaged as [-> Hmanaged].
    rewrite List.Forall_forall in Hmanaged.
    destruct (Hmanaged _ Hfile) as (n' & c' & [= E ->] & Hne & _).
    destruct (append_inj_suffix name n' ".wav" ".wav" eq_refl E) as [-> _].
    now apply (wav_file_listed all_permissions entries n' c').
Qed.

(** ... and a registration is accepted exactly for the non-empty names
    for which the existence test answers no. *)
Lemma newvoice_command_preparing_iff
    (w : world) (msg : message) (ctx : context) :
  let name := sanitize_voice_name (Py.join " " (args ctx)) in
  sent (exec (newvoice_command msg ctx) w)
  = sent w ++ [ReplyText (msg_preparing name)]
  ↔ name ≠ "" ∧ path_exists (voice_dir w) (name +:+ ".wav") = Ret false.
Proof.
  intros name. split; [apply newvoice_command_accepted|].
  intros [Hne Hfree].
  pose proof (newvoice_command_run w msg ctx) as Hrun. cbv zeta in Hrun.
  fold name in Hrun. unfold exec. rewrite Hrun. simpl.
  apply truthy_nonempty in Hne. rewrite Hne, Hfree. simpl.
  destruct (args ctx); [|reflexivity].
  exfalso. unfold name in Hne. discriminate.
Qed.

(** X10: when the storage location is, at the start, the bot's own (it is
    missing, or a directory on which the bot has every permission and that
    holds nothing but voices the bot could have written), this stays so
    during the run.  Then the listing and the existence test do not
    raise, a voice is listed exactly when [<name>.wav] exists, and a
    registration is accepted exactly when the sanitized name is non-empty
    and not listed in the catalog. *)
Theorem bot_managed_catalog_matches_existence
    (d : storage) (updates : list update) :
  bot_managed d →
  let w := process updates (initial_world d) in
  bot_managed (voice_dir w)
  ∧ result get_available_voices w = Ret (listed_voices (voice_dir w))
  ∧ (∀ file_name, ∃ there, path_exists (voice_dir w) file_name = Ret there)
  ∧ (∀ name,
       In name (listed_voices (voice_dir w))
       ↔ path_exists (voice_dir w) (name +:+ ".wav") = Ret true)
  ∧ (∀ msg ctx,
       sent (exec (newvoice_command msg ctx) w)
       = sent w
         ++ [ReplyText
               (msg_preparing
                  (sanitize_voice_name (Py.join " " (args ctx))))]
       ↔ sanitize_voice_name (Py.join " " (args ctx)) ≠ ""
         ∧ ¬ In (sanitize_voice_name (Py.join " " (args ctx)))
                (listed_voices (voice_dir w))).
Proof.
  intros Hd w.
  assert (bot_managed (voice_dir w)) as Hmanaged
    by (apply process_bot_managed;
        [apply initial_world_pending_valid|exact Hd]).
  split; [assumption|]. split.
  { rewrite get_available_voices_result. apply listing_outcome_reachable.
    intros E. rewrite E in Hmanaged. exact Hmanaged. }
  split.
  { intros file_name. eexists. now apply bot_managed_path_exists. }
  split.
  - intros name. now apply bot_managed_listed_iff_exists.
  - intros msg ctx.
    pose proof (newvoice_command_preparing_iff w msg ctx) as Hiff.
    cbv zeta in Hiff. rewrite Hiff.
    rewrite (bot_managed_listed_iff_exists _
               (sanitize_voice_name (Py.join " " (args ctx))) Hmanaged).
    rewrite (bot_managed_path_exists _
               (sanitize_voice_name (Py.join " " (args ctx)) +:+ ".wav")
               Hmanaged).
    destruct (bool_decide _);
      split; intros [? ?]; split; try assumption; congruence.
Qed.

(** ** How the handlers compose *)

(** An upload whose file arrives and is written in full is saved, in a
    directory that can be searched, as a new file when the directory is
    writable, and over a regular file of the same name. *)
Lemma handle_audio_saves (w : world) (msg : message)
    (ctx : context) (name file_id : string) (f : telegram_file)
    (content : list Byte.byte) (p : permissions)
    (entries : list (string * node)) :
  awaiting_voice_upload w !! from_user msg = Some name →
  audio_message_part msg = Some file_id →
  get_file ctx file_id = Ret f →
  download f = Ret content →
  disk f = WriteCompletes →
  mkdir (voice_dir w) = Ret (Dir p entries) →
  searchable p = true →
  (lookup_entry (name +:+ ".wav") entries = None ∧ writable p = true)
  ∨ (∃ old, lookup_entry (name +:+ ".wav") entries
            = Some (RegularFile old)) →
  ∃ w' entries',
    handle_audio msg ctx w = (Ret tt, w')
    ∧ awaiting_voice_upload w'
      = delete (from_user msg) (awaiting_voice_upload w)
    ∧ sent w' = sent w ++ [ReplyText (msg_added name)]
    ∧ voice_dir w' = Dir p entries'
    ∧ ∀ file_name,
        lookup_entry file_name entries'
        = if String.eqb (name +:+ ".wav") file_name
          then Some (RegularFile content)
          else lookup_entry file_name entries.
Proof.
  intros Hpending Hpart Hget Hdl Hdisk Hmkdir Hx Hfree.
  pose proof (write_bytes_returns p entries (name +:+ ".wav") content
                (place f) Hx Hfree) as Hreturns.
  destruct (write_bytes_completes _ _ _ _ _ Hreturns)
    as (p' & es & entries' & [= <- <-] & Hfst & _ & Hfile).
  unfold handle_audio.
  unfold bind at 1. unfold get_world at 1. rewrite Hpending.
  unfold bind at 1. unfold modify at 1. rewrite Hpart.
  destruct (check_mime_type_run (from_user msg) name msg
              (set_awaiting (λ m, delete (from_user msg) m) w))
    as (w1 & Hmime & Hsel1 & Haw1 & Hdir1 & Hsent1).
  unfold bind at 1. rewrite Hmime. unfold try_except.
  simpl in Hsel1, Haw1, Hdir1, Hsent1.
  rewrite save_voice_run, Hget, Hdir1, Hmkdir, Hdl, Hdisk. cbv zeta.
  rewrite Hreturns, Hfst.
  eexists _, entries'. split; [reflexivity|]. simpl.
  rewrite Haw1, Hsent1. repeat split.
  intros file_name.
  destruct (String.eqb_spec (name +:+ ".wav") file_name) as [<-|Hne];
    [assumption|].
  pose proof (write_bytes_lookup (Dir p entries) (name +:+ ".wav") file_name
                content WriteCompletes (place f)) as Hl.
  rewrite Hfst in Hl. simpl in Hl. apply Hl. congruence.
Qed.

(** Where new files are accepted, the directory is there after [mkdir],
    writable and searchable, with the entries it had. *)
Lemma mkdir_accepts_new_files (d : storage) :
  accepts_new_files d = true →
  ∃ p entries,
    mkdir d = Ret (Dir p entries)
    ∧ writable p = true ∧ searchable p = true
    ∧ ∀ file_name, lookup_entry file_name entries
                   = storage_lookup d file_name.
Proof.
  destruct d as [| | | |p entries]; simpl; try discriminate.
  - intros _. exists all_permissions, []. repeat split.
  - intros H. apply andb_true_iff in H as [Hw Hx].
    exists p, entries. repeat split; assumption.
Qed.

(** X11: two users can await an upload under one name, since a
    registration writes no file; both uploads are then accepted, where
    new files are accepted and the disk takes the bytes, and the later one
    overwrites the earlier: the file holds the bytes of the second
    upload. *)
Theorem same_name_uploads_overwrite
    (w : world) (cmd1 cmd2 upload1 upload2 : message)
    (ctx ctx1 ctx2 : context) (file_id1 file_id2 : string)
    (f1 f2 : telegram_file) (content1 content2 : list Byte.byte) :
  let name := sanitize_voice_name (Py.join " " (args ctx)) in
  let w1 := exec (newvoice_command cmd1 ctx) w in
  let w2 := exec (newvoice_command cmd2 ctx) w1 in
  let w3 := exec (handle_audio upload1 ctx1) w2 in
  let w4 := exec (handle_audio upload2 ctx2) w3 in
  from_user cmd1 ≠ from_user cmd2 →
  from_user upload1 = from_user cmd1 →
  from_user upload2 = from_user cmd2 →
  name ≠ "" →
  path_exists (voice_dir w) (name +:+ ".wav") = Ret false →
  accepts_new_files (voice_dir w) = true →
  audio_message_part upload1 = Some file_id1 →
  get_file ctx1 file_id1 = Ret f1 →
  download f1 = Ret content1 →
  disk f1 = WriteCompletes →
  audio_message_part upload2 = Some file_id2 →
  get_file ctx2 file_id2 = Ret f2 →
  download f2 = Ret content2 →
  disk f2 = WriteCompletes →
  registration_of w2 (from_user cmd1) = AwaitingUpload name
  ∧ registration_of w2 (from_user cmd2) = AwaitingUpload name
  ∧ sent w3 = sent w2 ++ [ReplyText (msg_added name)]
  ∧ storage_lookup (voice_dir w3) (name +:+ ".wav")
    = Some (RegularFile content1)
  ∧ sent w4 = sent w3 ++ [ReplyText (msg_added name)]
  ∧ storage_lookup (voice_dir w4) (name +:+ ".wav")
    = Some (RegularFile content2).
Proof.
  intros name w1 w2 w3 w4 Hne Hu1 Hu2 Hname Hfree Hacc
    Hpart1 Hget1 Hdl1 Hdisk1 Hpart2 Hget2 Hdl2 Hdisk2.
  destruct (newvoice_command_accepts w cmd1 ctx Hname Hfree)
    as (Haw1 & Hdir1).
  fold name w1 in Haw1, Hdir1.
  assert (path_exists (voice_dir w1) (name +:+ ".wav") = Ret false)
    as Hfree1 by now rewrite Hdir1.
  destruct (newvoice_command_accepts w1 cmd2 ctx Hname Hfree1)
    as (Haw2 & Hdir2).
  fold name w2 in Haw2, Hdir2.
  assert (awaiting_voice_upload w2 !! from_user cmd1 = Some name) as Hp1.
  { rewrite Haw2, lookup_insert_ne by congruence.
    rewrite Haw1. apply lookup_insert_eq. }
  assert (awaiting_voice_upload w2 !! from_user cmd2 = Some name) as Hp2.
  { rewrite Haw2. apply lookup_insert_eq. }
  destruct (mkdir_accepts_new_files _ Hacc)
    as (p & entries & Hmk & Hw & Hx & Hsame).
  assert (lookup_entry (name +:+ ".wav") entries = None) as Hnone.
  { rewrite Hsame. destruct (voice_dir w) as [| | | |q es];
      try reflexivity. simpl. now apply (path_exists_false q). }
  rewrite <- Hu1 in Hp1. rewrite <- Hu2 in Hp2.
  rewrite <- Hdir1, <- Hdir2 in Hmk.
  destruct (handle_audio_saves w2 upload1 ctx1 name file_id1 f1
              content1 p entries Hp1 Hpart1 Hget1 Hdl1 Hdisk1 Hmk Hx)
    as (w3' & entries3 & Hrun3 & Haw3 & Hsent3 & Hdir3 & Hl3);
    [left; now split|].
  assert (w3 = w3') as E3 by (unfold w3, exec; now rewrite Hrun3).
  rewrite <- E3 in *. clear E3 Hrun3 w3'.
  assert (lookup_entry (name +:+ ".wav") entries3
          = Some (RegularFile content1)) as Hfile3
    by (now rewrite Hl3, String.eqb_refl).
  assert (awaiting_voice_upload w3 !! from_user upload2 = Some name) as Hp3.
  { rewrite Haw3, lookup_delete_ne by congruence. exact Hp2. }
  destruct (handle_audio_saves w3 upload2 ctx2 name file_id2 f2
              content2 p entries3 Hp3 Hpart2 Hget2 Hdl2 Hdisk2)
    as (w4' & entries4 & Hrun4 & Haw4 & Hsent4 & Hdir4 & Hl4);
    [now rewrite Hdir3|assumption|right; eauto|].
  assert (w4 = w4') as E4 by (unfold w4, exec; now rewrite Hrun4).
  rewrite <- E4 in *. clear E4 Hrun4 w4'.
  rewrite Hu1 in Hp1. rewrite Hu2 in Hp2.
  repeat split; try assumption;
    try (now apply registration_of_AwaitingUpload).
  - now rewrite Hdir3.
  - rewrite Hdir4. simpl. now rewrite Hl4, String.eqb_refl.
Qed.


(** X13: an upload attempt uses the registration up, whatever its outcome:
    the next audio message of the same user is answered with the guidance
    to use [/newvoice] first, and changes nothing. *)
Theorem second_audio_message_is_turned_away
    (w : world) (msg1 msg2 : message) (ctx1 ctx2 : context) :
  let w1 := exec (handle_audio msg1 ctx1) w in
  let w2 := exec (handle_audio msg2 ctx2) w1 in
  from_user msg2 = from_user msg1 →
  sent w2 = sent w1 ++ [ReplyText msg_use_newvoice_first]
  ∧ awaiting_voice_upload w2 = awaiting_voice_upload w1
  ∧ user_selected_voice w2 = user_selected_voice w1
  ∧ voice_dir w2 = voice_dir w1.
Proof.
  intros w1 w2 Hu.
  destruct (handle_audio_effects w msg1 ctx1) as (w1' & Hrun & _ & Haw & _).
  assert (w1 = w1') as E by (unfold w1, exec; now rewrite Hrun).
  rewrite <- E in *. clear E Hrun w1'.
  assert (awaiting_voice_upload w1 !! from_user msg2 = None) as Hnone
    by (rewrite Haw, Hu; apply lookup_delete_eq).
  unfold w2, exec, handle_audio. run. rewrite Hnone. simpl. repeat split.
Qed.

(** ** The voice menu *)





(** ** Startup *)


(** ** The further properties at concrete runs *)

(** X5 at a registration of user 7: user 8 stays in [Idle]. *)
Lemma dispatch_leaves_other_users_alone_witness :
  registration_of
    (exec (dispatch (NewvoiceCommand (text_message 7 "/newvoice bob")
                                     (with_args ["bob"])))
          (initial_world (Listing []))) 8
  = registration_of (initial_world (Listing [])) 8
  ∧ registration_of
      (exec (dispatch (NewvoiceCommand (text_message 7 "/newvoice bob")
                                       (with_args ["bob"])))
            (initial_world (Listing []))) 7
    = AwaitingUpload "bob".
Proof.
  split; [|reflexivity].
  apply (dispatch_leaves_other_users_alone
           (NewvoiceCommand (text_message 7 "/newvoice bob")
                            (with_args ["bob"]))
           (initial_world (Listing [])) 8).
  simpl. lia.
Defined.

(** X7 at the run where user 7 has registered [bob]. *)
Lemma pending_names_are_valid_witness :
  awaiting_voice_upload
    (process [NewvoiceCommand (text_message 7 "/newvoice bob")
                              (with_args ["bob"])]
             (initial_world Missing)) !! 7
  = Some "bob"
  ∧ sanitize_voice_name "bob" = "bob".
Proof.
  split; [reflexivity|].
  exact (proj2 (proj2 (proj2
    (pending_names_are_valid Missing
       [NewvoiceCommand (text_message 7 "/newvoice bob") (with_args ["bob"])]
       7 "bob" eq_refl)))).
Defined.

(** X8 at a catalog of [alice] and [bob], to which [MyVoice] is added. *)
Lemma process_keeps_listed_voices_witness :
  In "alice" (listed_voices (voice_dir (initial_world catalog_alice_bob)))
  ∧ In "alice"
       (listed_voices
          (voice_dir (process register_and_upload
                              (initial_world catalog_alice_bob)))).
Proof.
  split; [now left|].
  apply (process_keeps_listed_voices register_and_upload
           (initial_world catalog_alice_bob) "alice").
  now left.
Defined.


(** X10 at a fresh bot without a storage location, after a registration
    and its upload. *)
Lemma bot_managed_catalog_matches_existence_witness :
  bot_managed Missing
  ∧ bot_managed
      (voice_dir (process register_and_upload (initial_world Missing)))
  ∧ listed_voices
      (voice_dir (process register_and_upload (initial_world Missing)))
    = ["MyVoice"].
Proof.
  split; [exact I|]. split; [|reflexivity].
  exact (proj1 (bot_managed_catalog_matches_existence Missing
                  register_and_upload I)).
Defined.

(** X11 at a fresh bot: users 7 and 8 register [bob]; 7 uploads ten
    bytes, then 8 uploads two. *)
Lemma same_name_uploads_overwrite_witness :
  storage_lookup
    (voice_dir
       (exec (handle_audio (voice_message 8 "file-2")
                           (bot_delivering two_bytes))
          (exec (handle_audio (voice_message 7 "file-1")
                              (bot_delivering ten_bytes))
             (exec (newvoice_command (text_message 8 "/newvoice bob")
                                     (with_args ["bob"]))
                (exec (newvoice_command (text_message 7 "/newvoice bob")
                                        (with_args ["bob"]))
                      (initial_world Missing))))))
    "bob.wav"
  = Some (RegularFile two_bytes).
Proof.
  refine (proj2 (proj2 (proj2 (proj2 (proj2
    (same_name_uploads_overwrite (initial_world Missing)
       (text_message 7 "/newvoice bob") (text_message 8 "/newvoice bob")
       (voice_message 7 "file-1") (voice_message 8 "file-2")
       (with_args ["bob"]) (bot_delivering ten_bytes)
       (bot_delivering two_bytes) "file-1" "file-2"
       (delivered ten_bytes) (delivered two_bytes)
       ten_bytes two_bytes
       _ eq_refl eq_refl _ eq_refl eq_refl
       eq_refl eq_refl eq_refl eq_refl eq_refl eq_refl eq_refl eq_refl)))))).
  - simpl. lia.
  - discriminate.
Defined.


(** X13 at the run where user 7 awaits the upload of [bob] and the Bot API
    cannot be reached. *)
Lemma second_audio_message_is_turned_away_witness :
  sent (exec (handle_audio (voice_message 7 "file-2") bot_offline)
          (exec (handle_audio (voice_message 7 "file-1") bot_offline)
                world_awaiting_bob))
  = sent (exec (handle_audio (voice_message 7 "file-1") bot_offline)
               world_awaiting_bob)
    ++ [ReplyText msg_use_newvoice_first].
Proof.
  exact (proj1 (second_audio_message_is_turned_away world_awaiting_bob
                  (voice_message 7 "file-1") (voice_message 7 "file-2")
                  bot_offline bot_offline eq_refl)).
Defined.


(** ** What lasts through a run *)

(** X17: a selection lasts: as long as the user presses no button, the
    user's entry of the selection dict is what it was, whatever else
    happens (also when the selected voice is not in the catalog). *)
Theorem selection_lasts_until_next_press
    (updates : list update) (w : world) (u : Z) :
  (∀ query, In (CallbackQuery query) updates → query_from_user query ≠ u) →
  user_selected_voice (process updates w) !! u = user_selected_voice w !! u.
Proof.
  revert w. induction updates as [|upd updates IH]; intros w Hno;
    [reflexivity|].
  rewrite process_cons, IH by (intros q Hq; apply Hno; now right).
  destruct (dispatch_effects upd w)
    as (r & w' & Hrun & Hother & _ & _ & Hsel & _).
  unfold exec. rewrite Hrun. simpl.
  destruct upd as [msg ctx|msg ctx|msg ctx|query|msg ctx|msg ctx];
    try now rewrite Hsel.
  apply Hother. simpl. intros E. apply (Hno query); [now left|now symmetry].
Qed.

(** X18: a pending registration never expires: as long as the user sends
    neither [/newvoice] nor an audio message, the user's registration
    state is what it was, whatever else happens. *)
Theorem registration_lasts_until_next_newvoice_or_audio
    (updates : list update) (w : world) (u : Z) :
  (∀ msg ctx, In (NewvoiceCommand msg ctx) updates → from_user msg ≠ u) →
  (∀ msg ctx, In (AudioMessage msg ctx) updates → from_user msg ≠ u) →
  registration_of (process updates w) u = registration_of w u.
Proof.
  revert w. induction updates as [|upd updates IH]; intros w Hnew Haudio;
    [reflexivity|].
  rewrite process_cons, IH
    by (intros m c Hin;
        solve [apply (Hnew m c); now right|apply (Haudio m c); now right]).
  destruct (dispatch_effects upd w)
    as (r & w' & Hrun & Hother & _ & _ & _ & Haw & _).
  unfold exec, registration_of. rewrite Hrun. simpl.
  destruct upd as [msg ctx|msg ctx|msg ctx|query|msg ctx|msg ctx];
    try now rewrite Haw.
  - assert (u ≠ from_user msg) as Hu
      by (intros E; apply (Hnew msg ctx); [now left|now symmetry]).
    now destruct (Hother u Hu) as [-> _].
  - assert (u ≠ from_user msg) as Hu
      by (intros E; apply (Haudio msg ctx); [now left|now symmetry]).
    now destruct (Hother u Hu) as [-> _].
Qed.

(** X17 at the run where user 7 selected the empty name and then a voice
    is registered and uploaded. *)
Lemma selection_lasts_until_next_press_witness :
  user_selected_voice (process register_and_upload world_empty_selection) !! 7
  = Some "".
Proof.
  rewrite (selection_lasts_until_next_press register_and_upload
             world_empty_selection 7); [reflexivity|].
  intros query [H|[H|[]]]; discriminate H.
Defined.

(** X18 at the run where user 7 awaits the upload of [bob] and sends a
    text and [/voice]. *)
Lemma registration_lasts_until_next_newvoice_or_audio_witness :
  registration_of
    (process [TextMessage (text_message 7 "hello") bot_offline;
              VoiceCommand (text_message 7 "/voice") bot_offline]
             world_awaiting_bob) 7
  = AwaitingUpload "bob".
Proof.
  rewrite (registration_lasts_until_next_newvoice_or_audio
             [TextMessage (text_message 7 "hello") bot_offline;
              VoiceCommand (text_message 7 "/voice") bot_offline]
             world_awaiting_bob 7); [reflexivity|..];
    intros msg ctx [H|[H|[]]]; discriminate H.
Defined.
